(** * Job Scout: the fetch / filter / normalize / de-dupe / sort pipeline of app.py

    A shallow embedding of [app.py] and the properties its specification
    states about it.

    Conventions of the embedding.
    - A Python [str] is a [string]; a character is a code point below 256.
      [str] comparison is by code point, which is [String.compare].
    - A Python [int] is a [Z].
    - A raised exception is the [Raise] case of [result]; the [try/except
      Exception] of [fetch_jobs] is a match on it.
    - The outside world (the network behind [feedparser.parse], the clock
      behind [datetime.now]) is a state of an arbitrary type [World] that the
      pipeline threads through its calls.
    - Library functions whose text is not part of the repository and whose
      result no property depends on ([str.lower], [urlparse(..).netloc],
      [int], [repr] of a list) are variables of the sections that use
      them. *)

From Stdlib Require Import ZArith List String Ascii Bool Lia.
From stdpp Require Import base decidable option list sorting gmap strings.

Local Open Scope Z_scope.

(* ===================================================================== *)
(** * Exceptions *)
(* ===================================================================== *)

(** The exceptions the modelled code can raise.  [OtherError] stands for
    whatever exception [feedparser.parse] lets out: every one of them is a
    subclass of [Exception].  (A failure that [feedparser.parse] keeps to
    itself is not one of them: see [FeedParserDict].) *)
Inductive exn : Type :=
| ValueError (msg : string)
| OverflowError (msg : string)
| KeyError (key : string)
| OtherError (msg : string).

Inductive result (A : Type) : Type :=
| Ok (a : A)
| Raise (e : exn).
Arguments Ok {A} a.
Arguments Raise {A} e.

Definition is_ok {A} (r : result A) : bool :=
  match r with Ok _ => true | Raise _ => false end.

(* ===================================================================== *)
(** * Strings *)
(* ===================================================================== *)

Module Str.

(** [bool(s)] of a string: the empty string is falsy. *)
Definition truthy (s : string) : bool :=
  match s with EmptyString => false | String _ _ => true end.

(** [str.isspace] on one character, for code points below 256. *)
Definition isspace (c : ascii) : bool :=
  let n := N_of_ascii c in
  ((9 <=? n) && (n <=? 13) || (28 <=? n) && (n <=? 32)
   || (n =? 133) || (n =? 160))%N.

Fixpoint lstrip (s : string) : string :=
  match s with
  | EmptyString => EmptyString
  | String c s' => if isspace c then lstrip s' else s
  end.

Fixpoint rstrip (s : string) : string :=
  match s with
  | EmptyString => EmptyString
  | String c s' =>
      match rstrip s' with
      | EmptyString => if isspace c then EmptyString else String c EmptyString
      | r => String c r
      end
  end.

(** [s.strip()] *)
Definition strip (s : string) : string := rstrip (lstrip s).

(** [s.split(sep)] for a one-character separator: never the empty list. *)
Fixpoint split (sep : ascii) (s : string) : list string :=
  match s with
  | EmptyString => [EmptyString]
  | String c s' =>
      if Ascii.eqb c sep then EmptyString :: split sep s'
      else match split sep s' with
           | h :: t => String c h :: t
           | [] => [String c EmptyString]
           end
  end.

(** [s.startswith(p)] *)
Definition startswith (s p : string) : bool := String.prefix p s.

(** [k in t]: [k] occurs in [t] as a contiguous substring. *)
Fixpoint contains (t k : string) : bool :=
  String.prefix k t ||
  match t with
  | EmptyString => false
  | String _ t' => contains t' k
  end.

(** [sep.join(parts)] *)
Definition join (sep : string) (parts : list string) : string :=
  String.concat sep parts.

(** The character at which the non-blank part of [s] starts, if any. *)
Fixpoint first_non_space (s : string) : option ascii :=
  match s with
  | EmptyString => None
  | String c s' => if isspace c then first_non_space s' else Some c
  end.

(** Decimal digits of a natural number, as [str(n)] prints them. *)
Fixpoint digits_fuel (fuel : nat) (n : Z) (acc : string) : string :=
  match fuel with
  | O => acc
  | S f =>
      let acc' := String (ascii_of_N (48 + Z.to_N (n mod 10))) acc in
      if n / 10 =? 0 then acc' else digits_fuel f (n / 10) acc'
  end.

Definition of_nat (n : nat) : string :=
  digits_fuel (S n) (Z.of_nat n) EmptyString.

(** [str(z)] of an integer.  A number has no more decimal digits than
    binary ones, which bounds the recursion. *)
Definition of_Z (z : Z) : string :=
  if z <? 0
  then "-" +:+ digits_fuel (S (Z.to_nat (Z.log2 (- z)))) (- z) EmptyString
  else digits_fuel (S (Z.to_nat (Z.log2 z))) z EmptyString.

(** The [w] low decimal digits of [n], most significant first: what
    ["%0wd" % n] prints when [0 <= n < 10^w]. *)
Fixpoint zfill (w : nat) (n : Z) : string :=
  match w with
  | O => EmptyString
  | S w' => zfill w' (n / 10) +:+ String (ascii_of_N (48 + Z.to_N (n mod 10))) EmptyString
  end.

(** [repr(s)] of a [str] whose code points are below 256.  The quote is
    the apostrophe, unless the string holds an apostrophe and no double
    quote.  The quote and the backslash are escaped with a backslash; tab,
    line feed and carriage return are written with their letters; every
    other character that [str.isprintable] rejects (the control characters,
    DEL, the no-break space and the soft hyphen) is written as a two-digit
    lower-case hexadecimal escape. *)
Definition APOSTROPHE : ascii := ascii_of_N 39.
Definition DOUBLE_QUOTE : ascii := ascii_of_N 34.
Definition BACKSLASH : ascii := ascii_of_N 92.

Fixpoint has_char (c : ascii) (s : string) : bool :=
  match s with
  | EmptyString => false
  | String c' s' => Ascii.eqb c' c || has_char c s'
  end.

Definition isprintable (c : ascii) : bool :=
  let n := N_of_ascii c in
  ((32 <=? n) && (n <? 127) || (161 <=? n) && negb (n =? 173))%N.

Definition hex_digit (n : N) : ascii :=
  if (n <? 10)%N then ascii_of_N (48 + n) else ascii_of_N (87 + n).

Definition one (c : ascii) : string := String c EmptyString.

Definition repr_char (quote c : ascii) : string :=
  let n := N_of_ascii c in
  if Ascii.eqb c quote || Ascii.eqb c BACKSLASH then String BACKSLASH (one c)
  else if (n =? 9)%N then String BACKSLASH "t"
  else if (n =? 10)%N then String BACKSLASH "n"
  else if (n =? 13)%N then String BACKSLASH "r"
  else if isprintable c then one c
  else String BACKSLASH
         (String "x" (String (hex_digit (n / 16)) (one (hex_digit (n mod 16))))).

Fixpoint repr_chars (quote : ascii) (s : string) : string :=
  match s with
  | EmptyString => EmptyString
  | String c s' => repr_char quote c +:+ repr_chars quote s'
  end.

Definition repr (s : string) : string :=
  let quote :=
    if has_char APOSTROPHE s && negb (has_char DOUBLE_QUOTE s)
    then DOUBLE_QUOTE else APOSTROPHE in
  String quote (repr_chars quote s +:+ one quote).

End Str.

(** [str(ex)], as the f-string of [fetch_jobs] renders it.  A [KeyError]
    prints the [repr] of its key. *)
Definition exn_str (e : exn) : string :=
  match e with
  | ValueError m | OverflowError m | OtherError m => m
  | KeyError k => Str.repr k
  end.

(* ===================================================================== *)
(** * Dates and times: [time.struct_time], [datetime], [timedelta] *)
(* ===================================================================== *)

Module Time.

(** The nine fields of a [time.struct_time], as [feedparser] fills
    [published_parsed] and [updated_parsed]. *)
Record struct_time : Type := mk_struct_time {
  tm_year : Z; tm_mon : Z; tm_mday : Z;
  tm_hour : Z; tm_min : Z; tm_sec : Z;
  tm_wday : Z; tm_yday : Z; tm_isdst : Z }.

(** A [datetime] whose [tzinfo] is [timezone.utc], the only kind [app.py]
    builds. *)
Record datetime : Type := mk_datetime {
  year : Z; month : Z; day : Z;
  hour : Z; minute : Z; second : Z; microsecond : Z }.

(** A [timedelta], normalized as Python keeps it:
    [0 <= seconds < 86400] and [0 <= microseconds < 1000000]. *)
Record timedelta : Type := mk_timedelta {
  days : Z; seconds : Z; microseconds : Z }.

Definition MINYEAR : Z := 1.
Definition MAXYEAR : Z := 9999.
(** [date.max.toordinal()] *)
Definition MAXORDINAL : Z := 3652059.
Definition US_PER_SECOND : Z := 1000000.
Definition US_PER_DAY : Z := 86400 * 1000000.

Definition is_leap (y : Z) : bool :=
  (y mod 4 =? 0) && (negb (y mod 100 =? 0) || (y mod 400 =? 0)).

(** Number of days before January 1st of year [y]. *)
Definition days_before_year (y : Z) : Z :=
  let y1 := y - 1 in y1 * 365 + y1 / 4 - y1 / 100 + y1 / 400.

Definition DAYS_IN_MONTH : list Z :=
  [-1; 31; 28; 31; 30; 31; 30; 31; 31; 30; 31; 30; 31].

Definition DAYS_BEFORE_MONTH : list Z :=
  [-1; 0; 31; 59; 90; 120; 151; 181; 212; 243; 273; 304; 334].

(** [_days_in_month] and [_days_before_month], by whether the year is a
    leap year. *)
Definition days_in_month_of (leap : bool) (m : Z) : Z :=
  if (m =? 2) && leap then 29 else nth (Z.to_nat m) DAYS_IN_MONTH 0.

Definition days_before_month_of (leap : bool) (m : Z) : Z :=
  nth (Z.to_nat m) DAYS_BEFORE_MONTH 0 + (if (2 <? m) && leap then 1 else 0).

Definition days_in_month (y m : Z) : Z := days_in_month_of (is_leap y) m.

Definition days_before_month (y m : Z) : Z := days_before_month_of (is_leap y) m.

(** Proleptic Gregorian ordinal: 0001-01-01 is day 1. *)
Definition ymd2ord (y m d : Z) : Z :=
  days_before_year y + days_before_month y m + d.

Definition DI400Y : Z := 146097.
Definition DI100Y : Z := 36524.
Definition DI4Y : Z := 1461.

(** Month and day of the [n]-th day (from 0) of a year: an estimate of the
    month that is exact or one too large, then the correction. *)
Definition month_day (leapyear : bool) (n : Z) : Z * Z :=
  let m := Z.shiftr (n + 50) 5 in
  let preceding := days_before_month_of leapyear m in
  if n <? preceding then
    let m' := m - 1 in
    let preceding' := preceding - days_in_month_of leapyear m' in
    (m', n - preceding' + 1)
  else (m, n - preceding + 1).

(** The inverse of [ymd2ord], as the library computes it. *)
Definition ord2ymd (n : Z) : Z * Z * Z :=
  let n := n - 1 in
  let n400 := n / DI400Y in
  let n := n mod DI400Y in
  let n100 := n / DI100Y in
  let n := n mod DI100Y in
  let n4 := n / DI4Y in
  let n := n mod DI4Y in
  let n1 := n / 365 in
  let n := n mod 365 in
  let y := n400 * 400 + 1 + n100 * 100 + n4 * 4 + n1 in
  if (n1 =? 4) || (n100 =? 4) then (y - 1, 12, 31)
  else
    let leapyear := (n1 =? 3) && (negb (n4 =? 24) || (n100 =? 3)) in
    let '(m, d) := month_day leapyear n in
    (y, m, d).

Definition in_range (lo x hi : Z) : bool := (lo <=? x) && (x <=? hi).

(** The checks of the [datetime] constructor. *)
Definition valid_fieldsb (y m d h mi s us : Z) : bool :=
  in_range MINYEAR y MAXYEAR && in_range 1 m 12
  && in_range 1 d (days_in_month y m)
  && in_range 0 h 23 && in_range 0 mi 59 && in_range 0 s 59
  && in_range 0 us 999999.

Definition validb (d : datetime) : bool :=
  valid_fieldsb (year d) (month d) (day d) (hour d) (minute d) (second d)
    (microsecond d).

(** [datetime(y, m, d, h, mi, s, us, tzinfo=timezone.utc)]: raises
    [ValueError] on a field out of range, in the order the library tests
    them. *)
Definition datetime_new (y m d h mi s us : Z) : result datetime :=
  if negb (in_range MINYEAR y MAXYEAR) then Raise (ValueError ("year " +:+ Str.of_Z y +:+ " is out of range"))
  else if negb (in_range 1 m 12) then Raise (ValueError "month must be in 1..12")
  else if negb (in_range 1 d (days_in_month y m))
       then Raise (ValueError "day is out of range for month")
  else if negb (in_range 0 h 23) then Raise (ValueError "hour must be in 0..23")
  else if negb (in_range 0 mi 59) then Raise (ValueError "minute must be in 0..59")
  else if negb (in_range 0 s 59) then Raise (ValueError "second must be in 0..59")
  else if negb (in_range 0 us 999999)
       then Raise (ValueError "microsecond must be in 0..999999")
  else Ok (mk_datetime y m d h mi s us).

(** [datetime] applied to [t[:6]] and [tzinfo=timezone.utc]: the first six
    fields of the [struct_time], microsecond 0. *)
Definition datetime_of_struct (t : struct_time) : result datetime :=
  datetime_new (tm_year t) (tm_mon t) (tm_mday t)
               (tm_hour t) (tm_min t) (tm_sec t) 0.

Definition toordinal (d : datetime) : Z := ymd2ord (year d) (month d) (day d).

(** The instant a [datetime] denotes: microseconds since
    0001-01-01T00:00:00 UTC. *)
Definition instant (d : datetime) : Z :=
  ((toordinal d - 1) * 86400 + hour d * 3600 + minute d * 60 + second d)
  * US_PER_SECOND + microsecond d.

(** The length of a [timedelta] in microseconds. *)
Definition duration (td : timedelta) : Z :=
  (days td * 86400 + seconds td) * US_PER_SECOND + microseconds td.

(** Comparison of two UTC datetimes: field by field, most significant
    first. *)
Definition lex (c : comparison) (k : comparison) : comparison :=
  match c with Eq => k | _ => c end.

Definition datetime_cmp (a b : datetime) : comparison :=
  lex (year a ?= year b)
  (lex (month a ?= month b)
  (lex (day a ?= day b)
  (lex (hour a ?= hour b)
  (lex (minute a ?= minute b)
  (lex (second a ?= second b)
       (microsecond a ?= microsecond b)))))).

(** [a >= b] *)
Definition datetime_geb (a b : datetime) : bool :=
  match datetime_cmp a b with Lt => false | _ => true end.

(** [timedelta(hours=h)] for an [int] [h]: [OverflowError] when the number
    of days does not fit a C [int], or exceeds 999999999 in magnitude. *)
Definition C_INT_MIN : Z := -2147483648.
Definition C_INT_MAX : Z := 2147483647.
Definition MAX_DELTA_DAYS : Z := 999999999.

Definition timedelta_hours (h : Z) : result timedelta :=
  let s := h * 3600 in
  let d := s / 86400 in
  if (d <? C_INT_MIN) || (C_INT_MAX <? d)
  then Raise (OverflowError "Python int too large to convert to C int")
  else if MAX_DELTA_DAYS <? Z.abs d
  then Raise (OverflowError ("days=" +:+ Str.of_Z d
                             +:+ "; must have magnitude <= 999999999"))
  else Ok (mk_timedelta d (s mod 86400) 0).

(** A [datetime] from an instant, when its day is one the type has. *)
Definition of_instant (t : Z) : result datetime :=
  let ordinal := t / US_PER_DAY + 1 in
  let r := t mod US_PER_DAY in
  let secs := r / US_PER_SECOND in
  if (0 <? ordinal) && (ordinal <=? MAXORDINAL) then
    let '(y, m, d) := ord2ymd ordinal in
    Ok (mk_datetime y m d (secs / 3600) (secs mod 3600 / 60) (secs mod 60)
                    (r mod US_PER_SECOND))
  else Raise (OverflowError "date value out of range").

(** [self - other] for a [timedelta] [other]: the datetime that lies
    [other] before [self]; [OverflowError] when its year would leave
    [MINYEAR..MAXYEAR]. *)
Definition datetime_sub (self : datetime) (other : timedelta) : result datetime :=
  of_instant (instant self - duration other).

(** [d.isoformat()] of a UTC datetime:
    [YYYY-MM-DDTHH:MM:SS[.ffffff]+00:00]. *)
Definition isoformat (d : datetime) : string :=
  Str.zfill 4 (year d) +:+ "-" +:+ Str.zfill 2 (month d) +:+ "-"
  +:+ Str.zfill 2 (day d) +:+ "T" +:+ Str.zfill 2 (hour d) +:+ ":"
  +:+ Str.zfill 2 (minute d) +:+ ":" +:+ Str.zfill 2 (second d)
  +:+ (if microsecond d =? 0 then "" else "." +:+ Str.zfill 6 (microsecond d))
  +:+ "+00:00".

(** ** Vocabulary of the properties *)

Definition days_in_year (y : Z) : Z := if is_leap y then 366 else 365.

(** A date the [datetime] constructor accepts. *)
Definition valid_date (y m d : Z) : Prop :=
  MINYEAR <= y <= MAXYEAR /\ 1 <= m <= 12 /\ 1 <= d <= days_in_month y m.

(** [month_day] gives a month and a day of that month, the [n + 1]-th day of
    the year. *)
Definition month_day_ok (leap : bool) (n : Z) : bool :=
  let '(m, d) := month_day leap n in
  (1 <=? m) && (m <=? 12) && (1 <=? d) && (d <=? days_in_month_of leap m)
  && (days_before_month_of leap m + d =? n + 1).

(** The length of a look-back window of [hours] hours, in microseconds. *)
Definition window (hours : Z) : Z := hours * 3600 * US_PER_SECOND.

End Time.

Import Time.


(* ===================================================================== *)
(** * The data model *)
(* ===================================================================== *)

(** A raw feed entry ([parsed.entries[i]]).  Every field is read with
    [getattr(e, name, default)] or guarded by [hasattr] and truthiness, so a
    field is either absent ([None]) or holds a value. *)
Record FeedEntry : Type := mk_entry {
  entry_title : option string;
  entry_summary : option string;
  entry_description : option string;
  entry_link : option string;
  entry_published_parsed : option struct_time;
  entry_updated_parsed : option struct_time }.

(** What [feedparser.parse] returns: the entries it could read and the
    [bozo] flag.  When the feed could not be fetched or was not well-formed
    it sets the flag, keeps the exception in [bozo_exception], and raises
    nothing. *)
Record FeedParserDict : Type := mk_parsed {
  parsed_entries : list FeedEntry;
  bozo : bool;
  bozo_exception : option exn }.

(** [feedparser.parse(url).entries]: the one field of the result that
    [fetch_jobs] reads. *)
Definition entries_of {World : Type}
    (parse : string -> World -> result FeedParserDict * World)
    (url : string) (w : World) : result (list FeedEntry) * World :=
  match parse url w with
  | (Ok parsed, w') => (Ok (parsed_entries parsed), w')
  | (Raise ex, w') => (Raise ex, w')
  end.

(** The dictionary [normalize_entry] returns. *)
Record JobPosting : Type := mk_posting {
  title : string;
  link : string;
  summary : string;
  published : option string;
  source : string }.

(** An element of [results]: a posting, or the one-key dictionary
    [{"error": ...}] appended by the [except] branch. *)
Inductive item : Type :=
| Posting (p : JobPosting)
| FetchError (error : string).

(** [r.get("link")], [r.get("title")], [r.get("published")]: the value under
    the key, Python's [None] when the dictionary has no such key. *)
Definition get_link (r : item) : option string :=
  match r with Posting p => Some (link p) | FetchError _ => None end.

Definition get_title (r : item) : option string :=
  match r with Posting p => Some (title p) | FetchError _ => None end.

Definition get_published (r : item) : option string :=
  match r with Posting p => published p | FetchError _ => None end.

(** [it['title']], [it['source']], [it['link']], [it['published']]:
    subscripting raises [KeyError] when the key is missing. *)
Definition getitem_title (it : item) : result string :=
  match it with Posting p => Ok (title p) | FetchError _ => Raise (KeyError "title") end.

Definition getitem_source (it : item) : result string :=
  match it with Posting p => Ok (source p) | FetchError _ => Raise (KeyError "source") end.

Definition getitem_link (it : item) : result string :=
  match it with Posting p => Ok (link p) | FetchError _ => Raise (KeyError "link") end.

Definition getitem_published (it : item) : result (option string) :=
  match it with
  | Posting p => Ok (published p)
  | FetchError _ => Raise (KeyError "published")
  end.

Definition is_posting (r : item) : bool :=
  match r with Posting _ => true | FetchError _ => false end.

Definition is_error (r : item) : bool := negb (is_posting r).

(** [getattr(e, name, "")] *)
Definition getattr_str (field : option string) : string := default "" field.

(** A posting is dated when its [published] field is the ISO form of a
    whole-second datetime the library accepts. *)
Definition dated (r : item) : Prop :=
  match r with
  | Posting p =>
      exists d, validb d = true /\ microsecond d = 0
                /\ published p = Some (isoformat d)
  | FetchError _ => True
  end.

(* ===================================================================== *)
(** * Configuration: [parse_env_list], [load_feeds_from_file], [get_config] *)
(* ===================================================================== *)

Definition DEFAULT_KEYWORDS : list string :=
  ["devops"; "cloud engineer"; "site reliability"; "sre";
   "platform engineer"; "infrastructure"].

Definition parse_env_list (value : string) : list string :=
  if negb (Str.truthy value) then []
  else map Str.strip
         (List.filter (fun v => Str.truthy (Str.strip v)) (Str.split ","%char value)).

(** The file system as [load_feeds_from_file] sees it.  [fs path] is [None]
    when [os.path.exists(path)] is false; otherwise it is what opening the
    file and iterating it yields: its lines, or the exception raised on the
    way (a directory, a permission or a decoding error). *)
Definition FileSystem : Type := string -> option (result (list string)).

Definition load_feeds_from_file (fs : FileSystem) (path : string)
  : result (list string) :=
  if negb (Str.truthy path) then Ok []
  else match fs path with
       | None => Ok []
       | Some (Raise e) => Raise e
       | Some (Ok lines) =>
           Ok (map Str.strip
                 (List.filter
                    (fun line => Str.truthy (Str.strip line)
                                 && negb (Str.startswith (Str.strip line) "#"))
                    lines))
       end.

(** An entry as [parse_env_list] returns them: not empty, nothing to trim,
    no comma. *)
Definition clean_entry (v : string) : Prop :=
  v <> "" /\ Str.strip v = v /\ Str.contains v "," = false.

(** A line as [load_feeds_from_file] returns them: not empty, nothing to
    trim, not a comment. *)
Definition clean_line (v : string) : Prop :=
  v <> "" /\ Str.strip v = v /\ Str.startswith v "#" = false.

(** A line of the feeds file is a feed when it is not blank and its first
    non-blank character is not [#]. *)
Definition feed_line (line : string) : Prop :=
  Str.first_non_space line <> None /\ Str.first_non_space line <> Some "#"%char.

#[global] Instance feed_line_dec line : Decision (feed_line line).
Proof. unfold feed_line. apply _. Defined.

(** The dictionary [get_config] returns. *)
Record Config : Type := mk_config {
  cfg_feeds : list string;
  cfg_keywords : list string;
  cfg_exclude : list string;
  cfg_hours : Z }.

(** [os.getenv(name, default)] *)
Definition Environ : Type := string -> option string.

Definition getenv (env : Environ) (name dflt : string) : string :=
  default dflt (env name).

(** The [ValueError] of [int(s)] on a string that is not a number: its
    message ends in the [repr] of the string, cut after 200 characters. *)
Definition int_error (s : string) : exn :=
  ValueError ("invalid literal for int() with base 10: "
              +:+ String.substring 0 200 (Str.repr s)).

Section Config.

(** [str.lower] and [int] on a string ([None]: [ValueError]). *)
Variable str_lower : string -> string.
Variable py_int : string -> option Z.

(** The feeds part of [get_config]: the explicit list, else the file. *)
Definition resolve_feeds (fs : FileSystem) (feed_urls_env feeds_file : string)
  : result (list string) :=
  let feeds := parse_env_list feed_urls_env in
  match feeds with
  | [] => load_feeds_from_file fs feeds_file
  | _ :: _ => Ok feeds
  end.

Definition get_config (env : Environ) (fs : FileSystem) : result Config :=
  let feed_urls_env := getenv env "FEED_URLS" "" in
  let feeds_file := getenv env "FEEDS_FILE" "feeds.example.txt" in
  let keywords_env := getenv env "KEYWORDS" (Str.join "," DEFAULT_KEYWORDS) in
  let exclude_env := getenv env "EXCLUDE_KEYWORDS" "" in
  match py_int (getenv env "HOURS" "24") with
  | None => Raise (int_error (getenv env "HOURS" "24"))
  | Some hours_env =>
      match resolve_feeds fs feed_urls_env feeds_file with
      | Raise e => Raise e
      | Ok feeds =>
          Ok {| cfg_feeds := feeds;
                cfg_keywords := map str_lower (parse_env_list keywords_env);
                cfg_exclude := map str_lower (parse_env_list exclude_env);
                cfg_hours := hours_env |}
      end
  end.

End Config.

(* ===================================================================== *)
(** * The pipeline: filter, normalize, collect, de-dupe, sort *)
(* ===================================================================== *)

(** [any(k in t for k in ks)] *)
Definition any_in (t : string) (ks : list string) : bool :=
  existsb (fun k => Str.contains t k) ks.

(** What the filter stage does with an entry: a [continue] was taken, or
    control reached [results.append(normalize_entry(e))]. *)
Inductive verdict : Type := Skip | Keep.

(** The key [seen] holds: [(r.get("link"), r.get("title"))]. *)
Abbreviation key_t := (option string * option string)%type.

Definition dedup_key (r : item) : key_t := (get_link r, get_title r).

(** The de-duplication loop of [fetch_jobs]: [seen] is the set of keys met so
    far, [deduped] the list built so far. *)
Fixpoint dedupe_loop (results : list item)
    (seen : gset key_t) (deduped : list item)
  : list item :=
  match results with
  | [] => deduped
  | r :: rest =>
      let key := dedup_key r in
      if decide (key ∈ seen) then dedupe_loop rest seen deduped
      else dedupe_loop rest ({[ key ]} ∪ seen) (deduped ++ [r])
  end.

Definition dedupe (results : list item) : list item :=
  dedupe_loop results ∅ [].

(** The loop without its accumulator: what it appends to [deduped] from a
    given point on. *)
Fixpoint dedupe_from (seen : gset key_t) (results : list item) : list item :=
  match results with
  | [] => []
  | r :: rest =>
      if decide (dedup_key r ∈ seen) then dedupe_from seen rest
      else r :: dedupe_from ({[ dedup_key r ]} ∪ seen) rest
  end.

(** [list.sort(key=key, reverse=reverse)] with string keys.  The library's
    sort is stable; a stable sort has one possible result, which insertion
    from the right computes.  With [reverse=True] the list is reversed,
    sorted and reversed again, which keeps equal keys in their first
    order. *)
Section ListSort.
Context {A : Type}.
Variable key : A -> string.

Fixpoint insert_sorted (x : A) (l : list A) : list A :=
  match l with
  | [] => [x]
  | y :: l' =>
      if String.leb (key x) (key y) then x :: y :: l'
      else y :: insert_sorted x l'
  end.

Fixpoint sort_ascending (l : list A) : list A :=
  match l with
  | [] => []
  | x :: l' => insert_sorted x (sort_ascending l')
  end.

Definition list_sort (rev_flag : bool) (l : list A) : list A :=
  if rev_flag then reverse (sort_ascending (reverse l)) else sort_ascending l.

(** [key a <= key b] and its converse, the orders the two directions of
    [list.sort] establish. *)
Definition key_le (a b : A) : Prop := String.le (key a) (key b).
Definition key_ge (a b : A) : Prop := String.le (key b) (key a).

End ListSort.

(** [lambda r: r.get("published") or ""] *)
Definition sort_key (r : item) : string :=
  match get_published r with
  | Some s => if Str.truthy s then s else ""
  | None => ""
  end.

(** The Result Aggregator: the part of [fetch_jobs] after the feed loop. *)
Definition aggregate (results : list item) : list item :=
  list_sort sort_key true (dedupe results).

Definition error_record (url : string) (ex : exn) : item :=
  FetchError ("Failed to parse " +:+ url +:+ ": " +:+ exn_str ex).

(** A posting, or the error record of a feed of the list [all]. *)
Definition error_of (all : list string) (r : item) : Prop :=
  is_posting r = true \/ exists url ex, url ∈ all /\ r = error_record url ex.

(** What the [except] branch appends, given how the [try] block ended. *)
Definition caught (url : string) (oex : option exn) : list item :=
  match oex with
  | Some ex => [error_record url ex]
  | None => []
  end.

Section Pipeline.

Context {World : Type}.

(** [feedparser.parse(url).entries], or the exception on the way to it. *)
Variable feedparser_parse : string -> World -> result (list FeedEntry) * World.
(** [datetime.now(timezone.utc)] *)
Variable datetime_now : World -> datetime * World.
(** [urlparse(link).netloc]; [urlparse] raises [ValueError] on some links. *)
Variable urlparse_netloc : string -> result string.
Variable str_lower : string -> string.

Definition within_hours (published_parsed : option struct_time) (hours : Z)
    (w : World) : result bool * World :=
  match published_parsed with
  | None => (Ok false, w)
  | Some t =>
      match datetime_of_struct t with
      | Raise ex => (Raise ex, w)
      | Ok published_dt =>
          let (now, w') := datetime_now w in
          match timedelta_hours hours with
          | Raise ex => (Raise ex, w')
          | Ok delta =>
              match datetime_sub now delta with
              | Raise ex => (Raise ex, w')
              | Ok cutoff => (Ok (datetime_geb published_dt cutoff), w')
              end
          end
      end
  end.

Definition match_keywords (text : string) (keywords : list string) : bool :=
  let t := str_lower text in
  match keywords with
  | [] => true
  | _ :: _ => any_in t keywords
  end.

Definition match_exclusions (text : string) (exclude : list string) : bool :=
  let t := str_lower text in
  match exclude with
  | [] => false
  | _ :: _ => any_in t exclude
  end.

Definition normalize_entry (entry : FeedEntry) : result JobPosting :=
  let published :=
    match entry_published_parsed entry with
    | Some t =>
        match datetime_of_struct t with
        | Ok d => Ok (Some (isoformat d))
        | Raise ex => Raise ex
        end
    | None =>
        match entry_updated_parsed entry with
        | Some t =>
            match datetime_of_struct t with
            | Ok d => Ok (Some (isoformat d))
            | Raise ex => Raise ex
            end
        | None => Ok None
        end
    end in
  match published with
  | Raise ex => Raise ex
  | Ok published =>
      match urlparse_netloc (getattr_str (entry_link entry)) with
      | Raise ex => Raise ex
      | Ok netloc =>
          Ok {| title := getattr_str (entry_title entry);
                link := getattr_str (entry_link entry);
                summary := getattr_str (entry_summary entry);
                published := published;
                source := netloc |}
      end
  end.

Section Run.

Variables (keywords exclude : list string) (hours : Z).

(** The text the keyword tests read. *)
Definition entry_text (e : FeedEntry) : string :=
  Str.join " " [getattr_str (entry_title e);
                getattr_str (entry_summary e);
                getattr_str (entry_description e)].

(** [getattr(e, "published_parsed", None) or getattr(e, "updated_parsed", None)] *)
Definition entry_timestamp (e : FeedEntry) : option struct_time :=
  match entry_published_parsed e with
  | Some t => Some t
  | None => entry_updated_parsed e
  end.

(** The three tests of the loop body, each ending in [continue]. *)
Definition filter_entry (e : FeedEntry) (w : World) : result verdict * World :=
  let text := entry_text e in
  let published_parsed := entry_timestamp e in
  match within_hours published_parsed hours w with
  | (Raise ex, w') => (Raise ex, w')
  | (Ok b, w') =>
      if negb b then (Ok Skip, w')
      else if negb (match_keywords text keywords) then (Ok Skip, w')
      else if match_exclusions text exclude then (Ok Skip, w')
      else (Ok Keep, w')
  end.

(** The body of [for e in parsed.entries], run on the list [results] as the
    previous iterations left it.  The exception, if one is raised, comes back
    with the list as it was at that point. *)
Fixpoint entries_loop (entries : list FeedEntry) (results : list item)
    (w : World) : list item * option exn * World :=
  match entries with
  | [] => (results, None, w)
  | e :: rest =>
      match filter_entry e w with
      | (Raise ex, w') => (results, Some ex, w')
      | (Ok Skip, w') => entries_loop rest results w'
      | (Ok Keep, w') =>
          match normalize_entry e with
          | Raise ex => (results, Some ex, w')
          | Ok p => entries_loop rest (results ++ [Posting p]) w'
          end
      end
  end.

(** One iteration of [for url in feeds]: the [try] block and its [except
    Exception] handler. *)
Definition feed_step (url : string) (results : list item) (w : World)
  : list item * World :=
  match feedparser_parse url w with
  | (Raise ex, w') => (results ++ [error_record url ex], w')
  | (Ok entries, w') =>
      match entries_loop entries results w' with
      | (results', None, w'') => (results', w'')
      | (results', Some ex, w'') => (results' ++ [error_record url ex], w'')
      end
  end.

Fixpoint feeds_loop (feeds : list string) (results : list item) (w : World)
  : list item * World :=
  match feeds with
  | [] => (results, w)
  | url :: rest =>
      let (results', w') := feed_step url results w in
      feeds_loop rest results' w'
  end.

Definition fetch_jobs (feeds : list string) (w : World) : list item * World :=
  let (results, w') := feeds_loop feeds [] w in
  (aggregate results, w').

(** The [try] block for one feed, started on an empty list: the postings it
    appends, the exception that ended it (if one did) and the world it
    leaves. *)
Definition try_feed (url : string) (w : World) : list item * option exn * World :=
  match feedparser_parse url w with
  | (Raise ex, w') => ([], Some ex, w')
  | (Ok entries, w') => entries_loop entries [] w'
  end.

End Run.

End Pipeline.

(* ===================================================================== *)
(** * The façade: the [/jobs] handler and the one-shot command line *)
(* ===================================================================== *)

(** What the [/jobs] handler returns: a [JSONResponse] with a status code and
    an ["error"] message, or the dictionary that FastAPI sends with status
    200. *)
Inductive Response : Type :=
| JSONResponse (status_code : Z) (error : string)
| JobsResult (count : nat) (hours : Z) (keywords exclude : list string)
             (items : list item).

Definition NO_FEEDS_HTTP : string :=
  "No feeds configured. Set FEED_URLS or provide feeds.example.txt.".

Definition NO_FEEDS_CLI : string :=
  "No feeds configured. Set FEED_URLS or provide feeds.example.txt".

(** The lines of [for it in items[:25]], appended to the output [out] so
    far.  A subscript that raises stops the loop; what was printed stays
    printed. *)
Fixpoint print_items (items : list item) (out : list string)
  : list string * option exn :=
  match items with
  | [] => (out, None)
  | it :: rest =>
      match getitem_title it with
      | Raise ex => (out, Some ex)
      | Ok t =>
          match getitem_source it with
          | Raise ex => (out, Some ex)
          | Ok s =>
              let out1 := out ++ ["- " +:+ t +:+ "  [" +:+ s +:+ "]"] in
              match getitem_link it with
              | Raise ex => (out1, Some ex)
              | Ok l =>
                  let out2 := out1 ++ ["  " +:+ l] in
                  match getitem_published it with
                  | Raise ex => (out2, Some ex)
                  | Ok (Some p) =>
                      if Str.truthy p
                      then print_items rest (out2 ++ ["  published: " +:+ p])
                      else print_items rest out2
                  | Ok None => print_items rest out2
                  end
              end
          end
      end
  end.

(** The lines the listing prints for one posting. *)
Definition posting_lines (p : JobPosting) : list string :=
  ["- " +:+ title p +:+ "  [" +:+ source p +:+ "]"; "  " +:+ link p]
  ++ match published p with
     | Some s => if Str.truthy s then ["  published: " +:+ s] else []
     | None => []
     end.

(** How [main] ends: it returns, an exception leaves it, or it hands over to
    the HTTP server. *)
Inductive ending : Type :=
| Returned
| Unhandled (ex : exn)
| Serving.

Section Facade.

Context {World : Type}.
Variable feedparser_parse : string -> World -> result (list FeedEntry) * World.
Variable datetime_now : World -> datetime * World.
Variable urlparse_netloc : string -> result string.
Variable str_lower : string -> string.
Variable py_int : string -> option Z.
(** [str] of a list of strings, as an f-string renders it. *)
Variable py_repr : list string -> string.

Definition run_pipeline (keywords exclude : list string) (hours : Z)
    (feeds : list string) (w : World) : list item * World :=
  fetch_jobs feedparser_parse datetime_now urlparse_netloc str_lower
             keywords exclude hours feeds w.

(** [[k.strip().lower() for k in s.split(",")]] *)
Definition override_list (s : string) : list string :=
  map (fun k => str_lower (Str.strip k)) (Str.split ","%char s).

(** The handler of [GET /jobs].  [hours], [keywords] and [exclude] are the
    query parameters, [None] when absent. *)
Definition jobs (hours : option Z) (keywords exclude : option string)
    (env : Environ) (fs : FileSystem) (w : World) : result Response * World :=
  match get_config str_lower py_int env fs with
  | Raise ex => (Raise ex, w)
  | Ok cfg =>
      let hrs := match hours with Some h => h | None => cfg_hours cfg end in
      let ks := match keywords with
                | Some s => if Str.truthy s then override_list s else cfg_keywords cfg
                | None => cfg_keywords cfg
                end in
      let ex := match exclude with
                | Some s => if Str.truthy s then override_list s else cfg_exclude cfg
                | None => cfg_exclude cfg
                end in
      match cfg_feeds cfg with
      | [] => (Ok (JSONResponse 400 NO_FEEDS_HTTP), w)
      | _ :: _ =>
          let (items, w') := run_pipeline ks ex hrs (cfg_feeds cfg) w in
          (Ok (JobsResult (length items) hrs ks ex items), w')
      end
  end.

Definition summary_line (items : list item) (cfg : Config) : string :=
  "Found " +:+ Str.of_nat (length items) +:+ " postings in last "
  +:+ Str.of_Z (cfg_hours cfg) +:+ "h matching " +:+ py_repr (cfg_keywords cfg).

(** [main()] with [args.once] as [once]: the lines printed to standard
    output and how the call ends. *)
Definition main (once : bool) (env : Environ) (fs : FileSystem) (w : World)
  : list string * ending * World :=
  if once then
    match get_config str_lower py_int env fs with
    | Raise ex => ([], Unhandled ex, w)
    | Ok cfg =>
        match cfg_feeds cfg with
        | [] => ([NO_FEEDS_CLI], Returned, w)
        | _ :: _ =>
            let (items, w') :=
              run_pipeline (cfg_keywords cfg) (cfg_exclude cfg) (cfg_hours cfg)
                           (cfg_feeds cfg) w in
            match print_items (take 25 items) [summary_line items cfg] with
            | (out, None) => (out, Returned, w')
            | (out, Some ex) => (out, Unhandled ex, w')
            end
        end
    end
  else
    match py_int (getenv env "PORT" "8000") with
    | None => ([], Unhandled (int_error (getenv env "PORT" "8000")), w)
    | Some _ => ([], Serving, w)
    end.

End Facade.

(* ===================================================================== *)
(** * A concrete world, to run the model on *)
(* ===================================================================== *)

Module Sample.

(** A world that is a clock reading and a table of feeds: every fetch of a
    URL gives the table's answer, and the clock does not move. *)
Record world : Type := mk_world {
  clock : datetime;
  feed_table : list (string * result (list FeedEntry)) }.

Fixpoint lookup_feed (url : string) (t : list (string * result (list FeedEntry)))
  : result (list FeedEntry) :=
  match t with
  | [] => Raise (OtherError "unreachable")
  | (u, r) :: t' => if String.eqb u url then r else lookup_feed url t'
  end.

Definition parse (url : string) (w : world) : result (list FeedEntry) * world :=
  (lookup_feed url (feed_table w), w).

(** A [feedparser.parse] that keeps every failure to itself: the table's
    exception goes to [bozo_exception], the entry list is empty, and
    nothing is raised. *)
Definition parse_quietly (url : string) (w : world)
  : result FeedParserDict * world :=
  match lookup_feed url (feed_table w) with
  | Ok entries => (Ok (mk_parsed entries false None), w)
  | Raise ex => (Ok (mk_parsed [] true (Some ex)), w)
  end.

Definition now (w : world) : datetime * world := (clock w, w).

(** ASCII lower case. *)
Definition lower_char (c : ascii) : ascii :=
  let n := N_of_ascii c in
  if ((65 <=? n) && (n <=? 90))%N then ascii_of_N (n + 32) else c.

Fixpoint lower (s : string) : string :=
  match s with
  | EmptyString => EmptyString
  | String c s' => String (lower_char c) (lower s')
  end.

(** A stand-in for [urlparse(..).netloc]: the text between ["//"] and the
    next ["/"], and [ValueError] on an unclosed bracket. *)
Fixpoint until_slash (s : string) : string :=
  match s with
  | EmptyString => EmptyString
  | String c s' => if Ascii.eqb c "/"%char then EmptyString else String c (until_slash s')
  end.

Fixpoint after_slashes (s : string) : option string :=
  match s with
  | EmptyString => None
  | String c s' =>
      if String.prefix "//" s then Some (until_slash (String.substring 2 (String.length s) s))
      else after_slashes s'
  end.

Definition netloc (url : string) : result string :=
  match after_slashes url with
  | None => Ok ""
  | Some host =>
      if Str.contains host "[" && negb (Str.contains host "]")
      then Raise (ValueError "Invalid IPv6 URL")
      else Ok host
  end.

(** Decimal digits only; anything else is not an [int] literal. *)
Fixpoint int_digits (s : string) (acc : Z) : option Z :=
  match s with
  | EmptyString => Some acc
  | String c s' =>
      let n := N_of_ascii c in
      if ((48 <=? n) && (n <=? 57))%N
      then int_digits s' (acc * 10 + Z.of_N (n - 48))
      else None
  end.

Definition int (s : string) : option Z :=
  match s with EmptyString => None | _ => int_digits s 0 end.

Definition repr (l : list string) : string :=
  "[" +:+ Str.join ", " (map Str.repr l) +:+ "]".

Definition time_of (y m d h mi s : Z) : struct_time :=
  mk_struct_time y m d h mi s 0 0 0.

Definition entry (t l : string) (pp : option struct_time) : FeedEntry :=
  mk_entry (Some t) (Some "") None (Some l) pp None.

Definition at_noon : datetime := mk_datetime 2026 11 3 12 0 0 0.

Definition world1 : world :=
  mk_world at_noon
    [("feedA", Ok [entry "DevOps Engineer opening" "https://a.example/1"
                         (Some (time_of 2026 11 3 11 0 0));
                   entry "DevOps Intern" "https://a.example/2"
                         (Some (time_of 2026 11 3 11 30 0));
                   entry "SRE (undated)" "https://a.example/3" None;
                   entry "Old devops job" "https://a.example/4"
                         (Some (time_of 2026 11 1 11 0 0))]);
     ("feedB", Raise (OtherError "connection refused"));
     ("feedC", Raise (OtherError "timed out"))].

(** One feed with one entry, published an hour before the clock reading;
    a second feed that cannot be reached. *)
Definition one_entry (t : string) : world :=
  mk_world at_noon
    [("feedA", Ok [entry t "https://a.example/1" (Some (time_of 2026 11 3 11 0 0))]);
     ("feedB", Raise (OtherError "connection refused"))].

Definition opening : item :=
  Posting {| title := "DevOps Engineer opening"; link := "https://a.example/1";
             summary := ""; published := Some "2026-11-03T11:00:00+00:00";
             source := "a.example" |}.

Definition run (keywords exclude : list string) (hours : Z) (feeds : list string)
    (w : world) : list item :=
  fst (fetch_jobs parse now netloc lower keywords exclude hours feeds w).

Definition no_env : Environ := fun _ => None.
Definition no_fs : FileSystem := fun _ => None.

Definition env_of (l : list (string * string)) : Environ :=
  fun name =>
    match List.find (fun kv => String.eqb (fst kv) name) l with
    | Some kv => Some (snd kv)
    | None => None
    end.

End Sample.


(* ===================================================================== *)
(** * Calendar arithmetic *)
(* ===================================================================== *)

Module TimeFacts.

(** One case per month. *)
Ltac month_cases m :=
  let H := fresh "Hm" in
  assert (H : m = 1 \/ m = 2 \/ m = 3 \/ m = 4 \/ m = 5 \/ m = 6 \/ m = 7
              \/ m = 8 \/ m = 9 \/ m = 10 \/ m = 11 \/ m = 12) by lia;
  repeat (destruct H as [H|H]; [subst m|]); [..|subst m].

(** Proves [c = (a ?= b)] for a constructor [c] from the order of [a] and
    [b]. *)
Ltac compare_goal :=
  symmetry;
  match goal with
  | |- (_ ?= _) = Eq => apply Z.compare_eq_iff
  | |- (_ ?= _) = Lt => apply Z.compare_lt_iff
  | |- (_ ?= _) = Gt => apply Z.compare_gt_iff
  end.

Lemma days_before_year_succ y :
  days_before_year (y + 1) = days_before_year y + days_in_year y.
Proof.
  unfold days_before_year, days_in_year, is_leap.
  replace (y + 1 - 1) with y by lia.
  destruct (y mod 4 =? 0) eqn:H4; destruct (y mod 100 =? 0) eqn:H100;
    destruct (y mod 400 =? 0) eqn:H400; simpl;
    rewrite ?Z.eqb_eq, ?Z.eqb_neq in *;
    Z.div_mod_to_equations; lia.
Qed.

Lemma days_in_year_bounds y : 365 <= days_in_year y <= 366.
Proof. unfold days_in_year. destruct (is_leap y); lia. Qed.

Lemma days_before_year_mono y1 y2 :
  y1 <= y2 -> days_before_year y1 <= days_before_year y2.
Proof.
  intros H. replace y2 with (y1 + (y2 - y1)) by lia.
  assert (Hk : 0 <= y2 - y1) by lia. revert Hk.
  generalize (y2 - y1) as k. clear H.
  apply (natlike_ind (fun k => days_before_year y1 <= days_before_year (y1 + k))).
  - replace (y1 + 0) with y1 by lia. lia.
  - intros k Hk IH. replace (y1 + Z.succ k) with (y1 + k + 1) by lia.
    rewrite days_before_year_succ.
    pose proof (days_in_year_bounds (y1 + k)). lia.
Qed.

(** The day of the year lies within the year. *)
Lemma day_of_year_bounds leap m d :
  1 <= m <= 12 -> 1 <= d <= days_in_month_of leap m ->
  1 <= days_before_month_of leap m + d <= (if leap then 366 else 365).
Proof.
  intros Hm. month_cases m; destruct leap; vm_compute days_in_month_of;
    vm_compute days_before_month_of; lia.
Qed.

(** A later month starts after the end of an earlier one. *)
Lemma days_before_month_mono leap m1 m2 :
  1 <= m1 -> m1 < m2 -> m2 <= 12 ->
  days_before_month_of leap m1 + days_in_month_of leap m1
  <= days_before_month_of leap m2.
Proof.
  intros H1 H12 H2.
  month_cases m1; month_cases m2; try lia;
    destruct leap; vm_compute; discriminate.
Qed.

Lemma ymd2ord_bounds y m d :
  valid_date y m d ->
  days_before_year y < ymd2ord y m d <= days_before_year (y + 1).
Proof.
  intros (Hy & Hm & Hd). unfold ymd2ord, days_before_month.
  rewrite days_before_year_succ. unfold days_in_year.
  pose proof (day_of_year_bounds (is_leap y) m d Hm Hd).
  destruct (is_leap y); lia.
Qed.

Lemma ymd2ord_range y m d :
  valid_date y m d -> 1 <= ymd2ord y m d <= MAXORDINAL.
Proof.
  intros Hv. pose proof (ymd2ord_bounds y m d Hv) as Hb.
  destruct Hv as (Hy & _). unfold MINYEAR, MAXYEAR in Hy.
  pose proof (days_before_year_mono 1 y ltac:(lia)) as H1.
  pose proof (days_before_year_mono (y + 1) 10000 ltac:(lia)) as H2.
  change (days_before_year 1) with 0 in H1.
  change (days_before_year 10000) with MAXORDINAL in H2. lia.
Qed.

(** Dates compare as their ordinals do. *)
Lemma ymd2ord_cmp y1 m1 d1 y2 m2 d2 :
  valid_date y1 m1 d1 -> valid_date y2 m2 d2 ->
  lex (y1 ?= y2) (lex (m1 ?= m2) (d1 ?= d2))
  = (ymd2ord y1 m1 d1 ?= ymd2ord y2 m2 d2).
Proof.
  intros Hv1 Hv2.
  pose proof (ymd2ord_bounds _ _ _ Hv1) as Hb1.
  pose proof (ymd2ord_bounds _ _ _ Hv2) as Hb2.
  symmetry. destruct (Z.compare_spec y1 y2) as [->|Hy|Hy]; simpl.
  - destruct Hv1 as (_ & Hm1 & Hd1), Hv2 as (_ & Hm2 & Hd2).
    unfold ymd2ord, days_before_month, days_in_month in *.
    destruct (Z.compare_spec m1 m2) as [->|Hm|Hm]; simpl.
    + destruct (Z.compare_spec d1 d2);
        [apply Z.compare_eq_iff|apply Z.compare_lt_iff|apply Z.compare_gt_iff]; lia.
    + apply Z.compare_lt_iff.
      pose proof (days_before_month_mono (is_leap y2) m1 m2); lia.
    + apply Z.compare_gt_iff.
      pose proof (days_before_month_mono (is_leap y2) m2 m1); lia.
  - apply Z.compare_lt_iff.
    pose proof (days_before_year_mono (y1 + 1) y2). lia.
  - apply Z.compare_gt_iff.
    pose proof (days_before_year_mono (y2 + 1) y1). lia.
Qed.


(** ** From an ordinal back to a date *)

Lemma month_day_check :
  forallb (fun n => month_day_ok true n && month_day_ok false n) (seqZ 0 365)
  = true.
Proof. vm_compute. reflexivity. Qed.

Lemma month_day_spec leap n :
  0 <= n < 365 ->
  let '(m, d) := month_day leap n in
  1 <= m <= 12 /\ 1 <= d <= days_in_month_of leap m
  /\ days_before_month_of leap m + d = n + 1.
Proof.
  intros Hn.
  assert (Hok : month_day_ok leap n = true).
  { pose proof month_day_check as Hc. rewrite forallb_forall in Hc.
    specialize (Hc n). rewrite <- list_elem_of_In, elem_of_seqZ in Hc.
    specialize (Hc ltac:(lia)). apply andb_prop in Hc as [? ?].
    by destruct leap. }
  unfold month_day_ok in Hok. destruct (month_day leap n) as [m d].
  repeat (apply andb_prop in Hok as [Hok ?]). lia.
Qed.

Lemma days_before_year_split n400 n100 n4 n1 :
  0 <= n400 -> 0 <= n100 <= 3 -> 0 <= n4 <= 24 -> 0 <= n1 <= 3 ->
  days_before_year (n400 * 400 + 1 + n100 * 100 + n4 * 4 + n1)
  = n400 * DI400Y + n100 * DI100Y + n4 * DI4Y + n1 * 365.
Proof.
  intros H400 H100 H4 H1. unfold days_before_year, DI400Y, DI100Y, DI4Y.
  replace (n400 * 400 + 1 + n100 * 100 + n4 * 4 + n1 - 1)
    with (n400 * 400 + n100 * 100 + n4 * 4 + n1) by lia.
  rewrite <- (Z.div_unique (n400 * 400 + n100 * 100 + n4 * 4 + n1) 4
             (n400 * 100 + n100 * 25 + n4) n1) by lia.
  rewrite <- (Z.div_unique (n400 * 400 + n100 * 100 + n4 * 4 + n1) 100
             (n400 * 4 + n100) (n4 * 4 + n1)) by lia.
  rewrite <- (Z.div_unique (n400 * 400 + n100 * 100 + n4 * 4 + n1) 400
             n400 (n100 * 100 + n4 * 4 + n1)) by lia.
  lia.
Qed.

Lemma is_leap_split n400 n100 n4 n1 :
  0 <= n400 -> 0 <= n100 <= 3 -> 0 <= n4 <= 24 -> 0 <= n1 <= 3 ->
  is_leap (n400 * 400 + 1 + n100 * 100 + n4 * 4 + n1)
  = (n1 =? 3) && (negb (n4 =? 24) || (n100 =? 3)).
Proof.
  intros H400 H100 H4 H1. unfold is_leap.
  set (y := n400 * 400 + 1 + n100 * 100 + n4 * 4 + n1).
  assert (E4 : y mod 4 = (n1 + 1) mod 4).
  { unfold y. replace (n400 * 400 + 1 + n100 * 100 + n4 * 4 + n1)
      with (n1 + 1 + (n400 * 100 + n100 * 25 + n4) * 4) by lia.
    apply Z_mod_plus_full. }
  assert (E100 : y mod 100 = (n4 * 4 + n1 + 1) mod 100).
  { unfold y. replace (n400 * 400 + 1 + n100 * 100 + n4 * 4 + n1)
      with (n4 * 4 + n1 + 1 + (n400 * 4 + n100) * 100) by lia.
    apply Z_mod_plus_full. }
  assert (E400 : y mod 400 = (n100 * 100 + n4 * 4 + n1 + 1) mod 400).
  { unfold y. replace (n400 * 400 + 1 + n100 * 100 + n4 * 4 + n1)
      with (n100 * 100 + n4 * 4 + n1 + 1 + n400 * 400) by lia.
    apply Z_mod_plus_full. }
  rewrite E4, E100, E400. clear E4 E100 E400 y.
  destruct (n1 =? 3) eqn:B1; destruct (n4 =? 24) eqn:B4;
    destruct (n100 =? 3) eqn:B100; simpl;
    rewrite ?Z.eqb_eq, ?Z.eqb_neq in *;
    repeat match goal with
           | |- context [?a mod ?b =? 0] =>
               let E := fresh "E" in
               destruct (a mod b =? 0) eqn:E;
               rewrite ?Z.eqb_eq, ?Z.eqb_neq in E
           end; simpl; try reflexivity;
    exfalso; Z.div_mod_to_equations; lia.
Qed.

(** [ord2ymd] inverts [ymd2ord] on the ordinals of the type, and gives a
    date the constructor accepts. *)
Lemma ord2ymd_spec n :
  1 <= n <= MAXORDINAL ->
  let '(y, m, d) := ord2ymd n in
  valid_date y m d /\ ymd2ord y m d = n.
Proof.
  intros Hn. unfold MAXORDINAL in Hn. unfold ord2ymd.
  set (n0 := n - 1).
  set (n400 := n0 / DI400Y). set (r1 := n0 mod DI400Y).
  set (n100 := r1 / DI100Y). set (r2 := r1 mod DI100Y).
  set (n4 := r2 / DI4Y). set (r3 := r2 mod DI4Y).
  set (n1 := r3 / 365). set (r4 := r3 mod 365).
  assert (F1 : n0 = n400 * 146097 + r1 /\ 0 <= r1 < 146097).
  { unfold n400, r1, DI400Y. Z.div_mod_to_equations. lia. }
  assert (F2 : r1 = n100 * 36524 + r2 /\ 0 <= r2 < 36524).
  { unfold n100, r2, DI100Y. Z.div_mod_to_equations. lia. }
  assert (F3 : r2 = n4 * 1461 + r3 /\ 0 <= r3 < 1461).
  { unfold n4, r3, DI4Y. Z.div_mod_to_equations. lia. }
  assert (F4 : r3 = n1 * 365 + r4 /\ 0 <= r4 < 365).
  { unfold n1, r4. Z.div_mod_to_equations. lia. }
  assert (F0 : n0 = n - 1) by reflexivity.
  clearbody n0 n400 r1 n100 r2 n4 r3 n1 r4.
  assert (B400 : 0 <= n400 <= 24) by lia.
  assert (B100 : 0 <= n100 <= 4) by lia.
  assert (B4 : 0 <= n4 <= 24) by lia.
  assert (B1 : 0 <= n1 <= 4) by lia.
  destruct ((n1 =? 4) || (n100 =? 4)) eqn:Hlast.
  - (* the last day of a leap year *)
    set (y := n400 * 400 + 1 + n100 * 100 + n4 * 4 + n1 - 1).
    apply orb_prop in Hlast. rewrite !Z.eqb_eq in Hlast.
    assert (Hleap : is_leap y = true /\ days_before_year y + 366 = n
                    /\ 1 <= y <= 9999).
    { destruct Hlast as [E1|E100].
      - assert (n4 <= 23 /\ n100 <= 3 /\ r4 = 0) as (? & ? & ?) by lia.
        replace y with (n400 * 400 + 1 + n100 * 100 + n4 * 4 + 3)
          by (unfold y; lia).
        rewrite is_leap_split, days_before_year_split by lia.
        unfold DI400Y, DI100Y, DI4Y.
        split; [|lia]. simpl.
        destruct (n4 =? 24) eqn:E24; [|done]. apply Z.eqb_eq in E24. lia.
      - assert (r2 = 0 /\ n4 = 0 /\ n1 = 0 /\ r4 = 0 /\ r3 = 0) as (? & ? & ? & ? & ?)
          by lia.
        replace y with (n400 * 400 + 1 + 3 * 100 + 24 * 4 + 3)
          by (unfold y; lia).
        rewrite is_leap_split, days_before_year_split by lia.
        unfold DI400Y, DI100Y, DI4Y.
        split; [done|lia]. }
    destruct Hleap as (Hleap & Hord & Hrange).
    split.
    + unfold valid_date, days_in_month, MINYEAR, MAXYEAR. rewrite Hleap.
      change (days_in_month_of true 12) with 31. lia.
    + unfold ymd2ord, days_before_month. rewrite Hleap.
      change (days_before_month_of true 12) with 335. lia.
  - apply orb_false_elim in Hlast as [E1 E100]. rewrite Z.eqb_neq in E1, E100.
    pose proof (is_leap_split n400 n100 n4 n1 ltac:(lia) ltac:(lia) ltac:(lia)
                  ltac:(lia)) as Hleap.
    pose proof (days_before_year_split n400 n100 n4 n1 ltac:(lia) ltac:(lia)
                  ltac:(lia) ltac:(lia)) as Hdby.
    unfold DI400Y, DI100Y, DI4Y in Hdby.
    set (leapyear := (n1 =? 3) && (negb (n4 =? 24) || (n100 =? 3))) in *.
    pose proof (month_day_spec leapyear r4 ltac:(lia)) as Hmd.
    destruct (month_day leapyear r4) as [m d].
    destruct Hmd as (Hm & Hd & Hsum).
    split.
    + unfold valid_date, days_in_month, MINYEAR, MAXYEAR. rewrite Hleap.
      repeat split; try lia.
    + unfold ymd2ord, days_before_month. rewrite Hleap, Hdby.
      clearbody leapyear. clear Hleap Hd.
      generalize dependent (days_before_month_of leapyear m). intros. lia.
Qed.


(** ** Datetimes and instants *)

Lemma in_range_spec lo x hi : in_range lo x hi = true <-> lo <= x <= hi.
Proof. unfold in_range. rewrite andb_true_iff, !Z.leb_le. done. Qed.

Lemma validb_spec d :
  validb d = true <->
  valid_date (year d) (month d) (day d)
  /\ 0 <= hour d <= 23 /\ 0 <= minute d <= 59 /\ 0 <= second d <= 59
  /\ 0 <= microsecond d <= 999999.
Proof.
  unfold validb, valid_fieldsb, valid_date.
  rewrite !andb_true_iff, !in_range_spec. tauto.
Qed.

Lemma instant_range d :
  validb d = true -> 0 <= instant d < MAXORDINAL * US_PER_DAY.
Proof.
  intros (Hd & Hh & Hm & Hs & Hus)%validb_spec.
  apply ymd2ord_range in Hd.
  unfold instant, toordinal, US_PER_DAY, US_PER_SECOND, MAXORDINAL in *. lia.
Qed.

Lemma lex_assoc c1 c2 c3 k :
  lex c1 (lex c2 (lex c3 k)) = lex (lex c1 (lex c2 c3)) k.
Proof. by destruct c1, c2, c3. Qed.

(** Comparing two datetimes field by field is comparing the instants they
    denote. *)
Lemma datetime_cmp_instant a b :
  validb a = true -> validb b = true ->
  datetime_cmp a b = (instant a ?= instant b).
Proof.
  intros (Hda & Hha & Hma & Hsa & Hua)%validb_spec
         (Hdb & Hhb & Hmb & Hsb & Hub)%validb_spec.
  unfold datetime_cmp. rewrite lex_assoc, (ymd2ord_cmp _ _ _ _ _ _ Hda Hdb).
  unfold instant, toordinal, US_PER_SECOND.
  generalize (ymd2ord (year a) (month a) (day a)) as oa.
  generalize (ymd2ord (year b) (month b) (day b)) as ob. intros ob oa.
  destruct (Z.compare_spec oa ob); simpl; [|compare_goal; lia..].
  destruct (Z.compare_spec (hour a) (hour b)); simpl; [|compare_goal; lia..].
  destruct (Z.compare_spec (minute a) (minute b)); simpl; [|compare_goal; lia..].
  destruct (Z.compare_spec (second a) (second b)); simpl; [|compare_goal; lia..].
  destruct (Z.compare_spec (microsecond a) (microsecond b)); compare_goal; lia.
Qed.

Lemma datetime_geb_instant a b :
  validb a = true -> validb b = true ->
  datetime_geb a b = (instant b <=? instant a).
Proof.
  intros Ha Hb. unfold datetime_geb. rewrite (datetime_cmp_instant a b Ha Hb).
  destruct (Z.compare_spec (instant a) (instant b)); symmetry;
    [apply Z.leb_le|apply Z.leb_gt|apply Z.leb_le]; lia.
Qed.

(** An instant within the range of the type is the instant of one valid
    datetime, which [of_instant] finds. *)
Lemma of_instant_spec t :
  0 <= t < MAXORDINAL * US_PER_DAY ->
  exists d, of_instant t = Ok d /\ validb d = true /\ instant d = t.
Proof.
  intros Ht. unfold of_instant.
  set (ordinal := t / US_PER_DAY + 1). set (r := t mod US_PER_DAY).
  set (secs := r / US_PER_SECOND). set (us := r mod US_PER_SECOND).
  assert (F1 : t = (ordinal - 1) * 86400000000 + r /\ 0 <= r < 86400000000).
  { unfold ordinal, r, US_PER_DAY. Z.div_mod_to_equations. lia. }
  assert (F2 : r = secs * 1000000 + us /\ 0 <= us < 1000000).
  { unfold secs, us, US_PER_SECOND. Z.div_mod_to_equations. lia. }
  clearbody ordinal r secs us.
  assert (Ho : 1 <= ordinal <= MAXORDINAL).
  { unfold MAXORDINAL, US_PER_DAY in *. lia. }
  assert (Hb : (0 <? ordinal) && (ordinal <=? MAXORDINAL) = true).
  { apply andb_true_iff. split; [apply Z.ltb_lt|apply Z.leb_le]; lia. }
  rewrite Hb. pose proof (ord2ymd_spec ordinal Ho) as Hymd.
  destruct (ord2ymd ordinal) as [[y m] d]. destruct Hymd as (Hv & Hord).
  eexists. split; [reflexivity|].
  assert (Hs : 0 <= secs < 86400) by lia.
  split.
  - apply validb_spec. simpl. split; [done|].
    Z.div_mod_to_equations. lia.
  - unfold instant, toordinal, US_PER_SECOND. simpl. rewrite Hord.
    Z.div_mod_to_equations. lia.
Qed.

Lemma of_instant_overflow t :
  t < 0 \/ MAXORDINAL * US_PER_DAY <= t -> is_ok (of_instant t) = false.
Proof.
  intros Ht. unfold of_instant.
  assert (Hb : (0 <? t / US_PER_DAY + 1) && (t / US_PER_DAY + 1 <=? MAXORDINAL)
               = false).
  { apply andb_false_iff. rewrite Z.ltb_ge, Z.leb_gt.
    unfold MAXORDINAL, US_PER_DAY in *. Z.div_mod_to_equations. lia. }
  by rewrite Hb.
Qed.

End TimeFacts.

Import TimeFacts.

(* ===================================================================== *)
(** * ISO timestamps sort as the instants they denote *)
(* ===================================================================== *)

Lemma append_cons c x s : String c x +:+ s = String c (x +:+ s).
Proof. reflexivity. Qed.

Lemma append_empty s : "" +:+ s = s.
Proof. reflexivity. Qed.

Lemma compare_app x : forall y s t,
  String.length x = String.length y ->
  String.compare (x +:+ s) (y +:+ t)
  = lex (String.compare x y) (String.compare s t).
Proof.
  induction x as [|c x IH]; intros [|c' y] s t Hlen; try discriminate.
  - reflexivity.
  - rewrite !append_cons. cbn [String.compare]. injection Hlen as Hlen.
    destruct (Ascii.compare c c'); [by apply IH|done..].
Qed.

Lemma length_app_string x y :
  String.length (x +:+ y) = (String.length x + String.length y)%nat.
Proof.
  induction x as [|c x IH]; [done|].
  rewrite append_cons. cbn [String.length]. lia.
Qed.

Lemma append_assoc x y z : (x +:+ y) +:+ z = x +:+ (y +:+ z).
Proof.
  induction x as [|c x IH]; [done|].
  rewrite !append_cons. by rewrite IH.
Qed.

(** A zero-padded number of at least one digit starts with a character. *)
Lemma append_cons_zfill w n :
  forall s, exists c r, Str.zfill (S w) n +:+ s = String c r.
Proof.
  revert n. induction w as [|w IH]; intros n s.
  - cbn [Str.zfill]. rewrite append_empty, append_cons. eauto.
  - change (Str.zfill (S (S w)) n)
      with (Str.zfill (S w) (n / 10)
            +:+ String (ascii_of_N (48 + Z.to_N (n mod 10))) EmptyString).
    rewrite append_assoc. apply IH.
Qed.

Lemma zfill_length w : forall n, String.length (Str.zfill w n) = w.
Proof.
  induction w as [|w IH]; intros n; cbn [Str.zfill]; [done|].
  rewrite length_app_string, IH. simpl. lia.
Qed.

Lemma digit_compare x y :
  0 <= x < 10 -> 0 <= y < 10 ->
  Ascii.compare (ascii_of_N (48 + Z.to_N x)) (ascii_of_N (48 + Z.to_N y))
  = (x ?= y).
Proof.
  intros Hx Hy. unfold Ascii.compare.
  rewrite !N_ascii_embedding by lia.
  rewrite <- N2Z.inj_compare.
  rewrite !N2Z.inj_add, !Z2N.id by lia.
  apply Z.add_compare_mono_l.
Qed.

(** Zero-padded numbers of one width compare as numbers. *)
Lemma zfill_compare w : forall a b,
  0 <= a < 10 ^ Z.of_nat w -> 0 <= b < 10 ^ Z.of_nat w ->
  String.compare (Str.zfill w a) (Str.zfill w b) = (a ?= b).
Proof.
  induction w as [|w IH]; intros a b Ha Hb.
  - simpl in *. assert (a = 0 /\ b = 0) as [-> ->] by lia. done.
  - rewrite Nat2Z.inj_succ, Z.pow_succ_r in Ha, Hb by lia.
    cbn [Str.zfill]. rewrite compare_app by (by rewrite !zfill_length).
    rewrite IH by (Z.div_mod_to_equations; lia).
    cbn [String.compare]. rewrite digit_compare by (Z.div_mod_to_equations; lia).
    destruct (Z.compare_spec (a `div` 10) (b `div` 10)); simpl.
    + destruct (Z.compare_spec (a `mod` 10) (b `mod` 10)); compare_goal;
        Z.div_mod_to_equations; lia.
    + compare_goal. Z.div_mod_to_equations; lia.
    + compare_goal. Z.div_mod_to_equations; lia.
Qed.

Lemma compare_sep (c : ascii) s t :
  String.compare (String c s) (String c t) = String.compare s t.
Proof.
  cbn [String.compare]. unfold Ascii.compare. by rewrite N.compare_refl.
Qed.

Lemma days_in_month_le_31 leap m :
  1 <= m <= 12 -> days_in_month_of leap m <= 31.
Proof. intros Hm. month_cases m; destruct leap; by vm_compute. Qed.

(** The ISO forms of two whole-second UTC datetimes compare as the
    datetimes do. *)
Lemma isoformat_compare a b :
  validb a = true -> validb b = true ->
  microsecond a = 0 -> microsecond b = 0 ->
  String.compare (isoformat a) (isoformat b) = datetime_cmp a b.
Proof.
  intros Ha Hb Hua Hub.
  apply validb_spec in Ha as ((Hya & Hma & Hda) & Hha & Hmia & Hsa & _).
  apply validb_spec in Hb as ((Hyb & Hmb & Hdb) & Hhb & Hmib & Hsb & _).
  assert (Hda' : 1 <= day a <= 31).
  { split; [lia|]. etrans; [apply Hda|]. by apply days_in_month_le_31. }
  assert (Hdb' : 1 <= day b <= 31).
  { split; [lia|]. etrans; [apply Hdb|]. by apply days_in_month_le_31. }
  unfold MINYEAR, MAXYEAR in *.
  unfold isoformat, datetime_cmp. rewrite Hua, Hub. cbn [Z.eqb].
  repeat (rewrite compare_app by (by rewrite !zfill_length);
          rewrite zfill_compare by (simpl; lia);
          rewrite ?append_cons, ?append_empty, ?compare_sep).
  rewrite Z.compare_refl.
  by destruct (year a ?= year b), (month a ?= month b), (day a ?= day b),
    (hour a ?= hour b), (minute a ?= minute b), (second a ?= second b).
Qed.

(** Hence the string order of ISO timestamps is the order of time. *)
Lemma isoformat_le_instant a b :
  validb a = true -> validb b = true ->
  microsecond a = 0 -> microsecond b = 0 ->
  String.le (isoformat a) (isoformat b) <-> instant a <= instant b.
Proof.
  intros Ha Hb Hua Hub. unfold String.le, String.leb.
  rewrite (isoformat_compare a b Ha Hb Hua Hub), (datetime_cmp_instant a b Ha Hb).
  destruct (Z.compare_spec (instant a) (instant b)); simpl; split; (done || lia).
Qed.

(* ===================================================================== *)
(** * Properties of the de-duplication loop *)
(* ===================================================================== *)

Lemma dedupe_loop_from results : forall seen deduped,
  dedupe_loop results seen deduped = deduped ++ dedupe_from seen results.
Proof.
  induction results as [|r rest IH]; intros seen deduped; simpl.
  - by rewrite app_nil_r.
  - destruct (decide (dedup_key r ∈ seen)); rewrite IH; [done|].
    by rewrite <- app_assoc.
Qed.

Lemma dedupe_eq results : dedupe results = dedupe_from ∅ results.
Proof. unfold dedupe. by rewrite dedupe_loop_from. Qed.

Lemma dedupe_from_sublist results : forall seen,
  dedupe_from seen results `sublist_of` results.
Proof.
  induction results as [|r rest IH]; intros seen; simpl.
  - constructor.
  - destruct (decide (dedup_key r ∈ seen)).
    + by apply sublist_cons.
    + by apply sublist_skip.
Qed.

Lemma dedupe_from_seen results : forall seen r,
  r ∈ dedupe_from seen results -> dedup_key r ∉ seen.
Proof.
  induction results as [|x rest IH]; intros seen r; simpl.
  - by intros ?%elem_of_nil.
  - destruct (decide (dedup_key x ∈ seen)) as [Hin|Hout].
    + apply IH.
    + intros [->|Hr]%elem_of_cons; [done|].
      apply IH in Hr. intros Hs. apply Hr. by apply elem_of_union_r.
Qed.

(** For each key, the loop keeps the first item that carries it and no
    other, unless the key was seen before. *)
Lemma dedupe_from_filter (k : key_t) results : forall seen,
  filter (fun r => dedup_key r = k) (dedupe_from seen results)
  = if decide (k ∈ seen) then []
    else take 1 (filter (fun r => dedup_key r = k) results).
Proof.
  induction results as [|r rest IH]; intros seen; simpl.
  - by destruct (decide (k ∈ seen)).
  - destruct (decide (dedup_key r ∈ seen)) as [Hin|Hout].
    + rewrite IH. destruct (decide (k ∈ seen)) as [|Hk]; [done|].
      rewrite filter_cons_False; [done|]. by intros <-.
    + rewrite filter_cons. destruct (decide (dedup_key r = k)) as [Heq|Hne].
      * rewrite IH.
        rewrite decide_True by (apply elem_of_union_l; by apply elem_of_singleton).
        rewrite decide_False by (by rewrite <- Heq).
        by rewrite filter_cons_True.
      * rewrite IH. rewrite (filter_cons_False _ r) by done.
        destruct (decide (k ∈ seen)) as [Hk|Hk].
        -- rewrite decide_True; [done|]. by apply elem_of_union_r.
        -- rewrite decide_False; [done|].
           intros [Hs%elem_of_singleton|]%elem_of_union; [by apply Hne|done].
Qed.

Lemma dedupe_sublist results : dedupe results `sublist_of` results.
Proof. rewrite dedupe_eq. apply dedupe_from_sublist. Qed.

Lemma dedupe_filter (k : key_t) results :
  filter (fun r => dedup_key r = k) (dedupe results)
  = take 1 (filter (fun r => dedup_key r = k) results).
Proof.
  rewrite dedupe_eq, dedupe_from_filter.
  rewrite decide_False; [done|]. apply not_elem_of_empty.
Qed.

Lemma dedupe_from_NoDup results : forall seen,
  NoDup (dedup_key <$> dedupe_from seen results).
Proof.
  induction results as [|r rest IH]; intros seen; simpl.
  - constructor.
  - destruct (decide (dedup_key r ∈ seen)); [apply IH|].
    rewrite fmap_cons. constructor; [|apply IH].
    intros (x & Hx & Hin)%list_elem_of_fmap.
    apply dedupe_from_seen in Hin. apply Hin. rewrite <- Hx.
    apply elem_of_union_l. by apply elem_of_singleton.
Qed.

Lemma dedupe_NoDup results : NoDup (dedup_key <$> dedupe results).
Proof. rewrite dedupe_eq. apply dedupe_from_NoDup. Qed.

(* ===================================================================== *)
(** * Properties of [list.sort] *)
(* ===================================================================== *)

Lemma filter_none {A} (P : A -> Prop) `{forall x, Decision (P x)} (l : list A) :
  (forall x, x ∈ l -> ~ P x) -> filter P l = [].
Proof.
  induction l as [|x l IH]; intros Hall; [done|].
  rewrite filter_cons_False by (apply Hall; left).
  apply IH. intros y Hy. apply Hall. by right.
Qed.

Section SortFacts.
Context {A : Type}.
Variable key : A -> string.

Lemma key_le_trans : Transitive (key_le key).
Proof. intros a b c Hab Hbc. unfold key_le in *. by etrans. Qed.

Lemma key_ge_trans : Transitive (key_ge key).
Proof. intros a b c Hab Hbc. unfold key_ge in *. by etrans. Qed.

Lemma leb_false_lt (s t : string) :
  String.leb s t = false -> String.le t s /\ s <> t.
Proof.
  intros Hf. split.
  - destruct (total String.le s t) as [Hle|Hle]; [|done].
    unfold String.le in Hle. rewrite Hf in Hle. done.
  - intros ->. assert (String.le t t) as Hr by reflexivity.
    unfold String.le in Hr. by rewrite Hf in Hr.
Qed.

Lemma insert_sorted_perm x l : insert_sorted key x l ≡ₚ x :: l.
Proof.
  induction l as [|y l IH]; simpl; [done|].
  destruct (String.leb (key x) (key y)); [done|].
  rewrite IH. apply Permutation_swap.
Qed.

Lemma sort_ascending_perm l : sort_ascending key l ≡ₚ l.
Proof.
  induction l as [|x l IH]; simpl; [done|].
  by rewrite insert_sorted_perm, IH.
Qed.

Lemma insert_sorted_HdRel a x l :
  (key_le key) a x -> HdRel (key_le key) a l -> HdRel (key_le key) a (insert_sorted key x l).
Proof.
  intros Hax Hal. destruct l as [|y l]; simpl; [by constructor|].
  destruct (String.leb (key x) (key y)); constructor; [done|].
  by inv Hal.
Qed.

Lemma insert_sorted_Sorted x l :
  Sorted (key_le key) l -> Sorted (key_le key) (insert_sorted key x l).
Proof.
  induction 1 as [|y l Hs IH Hhd]; simpl.
  - repeat constructor.
  - destruct (String.leb (key x) (key y)) eqn:Hxy.
    + constructor; [by constructor|]. constructor.
      unfold key_le, String.le. by rewrite Hxy.
    + constructor; [done|]. apply insert_sorted_HdRel; [|done].
      by apply leb_false_lt in Hxy as [? _].
Qed.

Lemma sort_ascending_Sorted l : Sorted (key_le key) (sort_ascending key l).
Proof.
  induction l as [|x l IH]; simpl; [constructor|].
  by apply insert_sorted_Sorted.
Qed.

(** Insertion goes past strictly smaller keys only, so it leaves the items
    of every key in the order they had. *)
Lemma insert_sorted_filter (k : string) x l :
  filter (fun a => key a = k) (insert_sorted key x l)
  = filter (fun a => key a = k) (x :: l).
Proof.
  induction l as [|y l IH]; simpl; [done|].
  destruct (String.leb (key x) (key y)) eqn:Hxy; [done|].
  apply leb_false_lt in Hxy as [_ Hne].
  rewrite (filter_cons _ y), IH, !(filter_cons _ x), (filter_cons _ y).
  destruct (decide (key x = k)) as [Hx|Hx]; [|done].
  destruct (decide (key y = k)) as [Hy|Hy]; [congruence|done].
Qed.

Lemma sort_ascending_filter (k : string) l :
  filter (fun a => key a = k) (sort_ascending key l)
  = filter (fun a => key a = k) l.
Proof.
  induction l as [|x l IH]; simpl; [done|].
  by rewrite insert_sorted_filter, !(filter_cons _ x), IH.
Qed.

(** [list.sort(key=key, reverse=True)]: a permutation, in descending key
    order, the items of equal key in their original order. *)
Lemma list_sort_reverse_perm l : list_sort key true l ≡ₚ l.
Proof.
  unfold list_sort.
  by rewrite reverse_Permutation, sort_ascending_perm, reverse_Permutation.
Qed.

Lemma list_sort_reverse_sorted l : StronglySorted (key_ge key) (list_sort key true l).
Proof.
  unfold list_sort. apply Sorted_StronglySorted; [apply key_ge_trans|].
  apply (Sorted_reverse (key_le key)), sort_ascending_Sorted.
Qed.

Lemma list_sort_reverse_stable (k : string) l :
  filter (fun a => key a = k) (list_sort key true l)
  = filter (fun a => key a = k) l.
Proof.
  unfold list_sort.
  by rewrite filter_reverse, sort_ascending_filter, filter_reverse, reverse_involutive.
Qed.

(** In a list in descending key order, the items with the empty key, the
    least string, are all at the end. *)
Lemma sorted_empty_key_last l :
  StronglySorted (key_ge key) l ->
  l = filter (fun a => key a <> "") l ++ filter (fun a => key a = "") l.
Proof.
  induction 1 as [|x l Hs IH Hall]; [done|].
  rewrite !(filter_cons _ x).
  destruct (decide (key x = "")) as [Hx|Hx].
  - rewrite decide_False by (intros Hn; by apply Hn).
    assert (Hempty : filter (fun a => key a <> "") l = []).
    { apply filter_none. intros y Hy Hne.
      rewrite list.Forall_forall in Hall. specialize (Hall y Hy).
      unfold key_ge, String.le in Hall. rewrite Hx in Hall.
      destruct (key y); [done|]. done. }
    rewrite Hempty in IH |- *. simpl in *. by rewrite <- IH.
  - rewrite decide_True by done. simpl. by rewrite <- IH.
Qed.

End SortFacts.

(* ===================================================================== *)
(** * The Result Aggregator *)
(* ===================================================================== *)

Lemma aggregate_perm results : aggregate results ≡ₚ dedupe results.
Proof. apply list_sort_reverse_perm. Qed.

Lemma take_1_short {A} (l k : list A) : l ≡ₚ take 1 k -> l = take 1 k.
Proof.
  destruct k as [|x k]; simpl.
  - by intros ?%Permutation_nil_r.
  - rewrite take_0. by intros ?%Permutation_singleton_r.
Qed.

Lemma aggregate_filter_key (k : key_t) results :
  filter (fun r => dedup_key r = k) (aggregate results)
  = take 1 (filter (fun r => dedup_key r = k) results).
Proof.
  apply take_1_short. rewrite <- dedupe_filter.
  apply filter_Permutation, aggregate_perm.
Qed.

(** Every key of the input is the key of an item of the output. *)
Lemma aggregate_covers results r :
  r ∈ results -> exists r', r' ∈ aggregate results /\ dedup_key r' = dedup_key r.
Proof.
  intros Hr.
  pose proof (aggregate_filter_key (dedup_key r) results) as Hf.
  destruct (filter (fun r0 => dedup_key r0 = dedup_key r) results) as [|x l] eqn:Hl.
  - exfalso. apply (filter_nil_not_elem_of _ _ r Hl); done.
  - simpl in Hf. rewrite take_0 in Hf.
    assert (Hx : x ∈ filter (fun r0 => dedup_key r0 = dedup_key r) (aggregate results)).
    { rewrite Hf. left. }
    apply list_elem_of_filter in Hx as [Hk Hx]. eauto.
Qed.

(** ** De-duplication (C6) *)


(** ** Sorting (C5) *)

Lemma sort_key_empty r :
  sort_key r = "" <-> get_published r = None \/ get_published r = Some "".
Proof.
  unfold sort_key. destruct (get_published r) as [[|c s]|]; simpl.
  - split; auto.
  - split; [done|]. by intros [|].
  - split; auto.
Qed.

Lemma isoformat_truthy d : Str.truthy (isoformat d) = true.
Proof.
  unfold isoformat.
  match goal with
  | |- Str.truthy (Str.zfill 4 ?n +:+ ?s) = true =>
      destruct (append_cons_zfill 3 n s) as (c & r & ->)
  end.
  reflexivity.
Qed.

Lemma sort_key_isoformat p d :
  published p = Some (isoformat d) -> sort_key (Posting p) = isoformat d.
Proof.
  intros Hp. unfold sort_key. simpl. rewrite Hp. by rewrite isoformat_truthy.
Qed.

Lemma sort_key_chronological pa pb da db :
  validb da = true -> validb db = true ->
  microsecond da = 0 -> microsecond db = 0 ->
  published pa = Some (isoformat da) ->
  published pb = Some (isoformat db) ->
  key_ge sort_key (Posting pa) (Posting pb) <-> instant db <= instant da.
Proof.
  intros Ha Hb Hua Hub Hpa Hpb. unfold key_ge.
  rewrite (sort_key_isoformat pa da Hpa), (sort_key_isoformat pb db Hpb).
  by apply isoformat_le_instant.
Qed.

(** C5.  The output is the de-duplicated list reordered: in descending order
    of the [published] string, an absent or empty one counting as the empty
    string, the least of all; the items without one therefore come last; and
    items with equal keys (in particular those without a timestamp) keep the
    order the de-duplication left them in.  For the timestamps the pipeline
    writes, ISO forms of whole-second UTC datetimes, the descending string
    order is the order from the most recent instant to the oldest. *)
Theorem aggregate_sorted_newest_first (results : list item) :
  aggregate results ≡ₚ dedupe results
  /\ StronglySorted (key_ge sort_key) (aggregate results)
  /\ (forall k : string,
        filter (fun r => sort_key r = k) (aggregate results)
        = filter (fun r => sort_key r = k) (dedupe results))
  /\ aggregate results
     = filter (fun r => sort_key r <> "") (aggregate results)
       ++ filter (fun r => sort_key r = "") (dedupe results)
  /\ (forall r, sort_key r = ""
                <-> get_published r = None \/ get_published r = Some "")
  /\ (forall pa pb da db,
        validb da = true -> validb db = true ->
        microsecond da = 0 -> microsecond db = 0 ->
        published pa = Some (isoformat da) ->
        published pb = Some (isoformat db) ->
        key_ge sort_key (Posting pa) (Posting pb) <-> instant db <= instant da).
Proof.
  split; [apply aggregate_perm|].
  split; [apply list_sort_reverse_sorted|].
  split; [intros k; apply list_sort_reverse_stable|].
  split; [|split; [apply sort_key_empty|apply sort_key_chronological]].
  rewrite <- (list_sort_reverse_stable sort_key "" (dedupe results)).
  apply sorted_empty_key_last, list_sort_reverse_sorted.
Qed.

(** ** Error records in the aggregator (C1) *)

(** An error record has no ["link"] and no ["title"]: its key is
    [(None, None)], which no posting has. *)
Lemma error_key e : dedup_key (FetchError e) = (None, None).
Proof. reflexivity. Qed.

Lemma posting_key_not_error p e : dedup_key (Posting p) <> dedup_key (FetchError e).
Proof. discriminate. Qed.

Lemma is_error_key r : is_error r = true <-> dedup_key r = (None, None).
Proof. destruct r; simpl; split; (done || discriminate). Qed.

Lemma filter_is_error (l : list item) :
  filter (fun r => is_error r = true) l
  = filter (fun r => dedup_key r = (None, None)) l.
Proof. apply list_filter_iff. intros r. apply is_error_key. Qed.

(** C1.  Of the error records handed to the aggregator only the first comes
    out: all of them have the key [(None, None)], so the de-duplication
    drops every later one.  No posting has that key, so no error record is
    dropped for a posting, nor a posting for an error record. *)
Theorem aggregate_keeps_first_error_only (results : list item) :
  filter (fun r => is_error r = true) (aggregate results)
  = take 1 (filter (fun r => is_error r = true) results)
  /\ (forall p e, dedup_key (Posting p) <> dedup_key (FetchError e)).
Proof.
  split; [|apply posting_key_not_error].
  rewrite !filter_is_error. apply aggregate_filter_key.
Qed.

Example two_failed_feeds_one_record :
  aggregate [FetchError "Failed to parse feedB: connection refused";
             FetchError "Failed to parse feedC: timed out"]
  = [FetchError "Failed to parse feedB: connection refused"].
Proof. vm_compute. reflexivity. Qed.

(* ===================================================================== *)
(** * The feed loop and the entry filter *)
(* ===================================================================== *)

Lemma datetime_new_ok y m d h mi s us dt :
  datetime_new y m d h mi s us = Ok dt ->
  dt = mk_datetime y m d h mi s us /\ validb dt = true.
Proof.
  unfold datetime_new, validb, valid_fieldsb.
  repeat match goal with
         | |- context [negb ?b] => destruct b eqn:?; simpl; try discriminate
         end.
  intros [= <-]. simpl. split; [done|].
  repeat match goal with H : _ = true |- _ => rewrite H; clear H end. done.
Qed.

Lemma datetime_new_valid y m d h mi s us :
  valid_fieldsb y m d h mi s us = true ->
  datetime_new y m d h mi s us = Ok (mk_datetime y m d h mi s us).
Proof.
  unfold datetime_new, valid_fieldsb. intros H.
  repeat match goal with
         | |- context [negb (in_range ?a ?b ?c)] =>
             destruct (in_range a b c) eqn:?; simpl in *; try discriminate
         end.
  reflexivity.
Qed.

Section PipelineFacts.

Context {World : Type}.
Variable feedparser_parse : string -> World -> result (list FeedEntry) * World.
Variable datetime_now : World -> datetime * World.
Variable urlparse_netloc : string -> result string.
Variable str_lower : string -> string.
Variables (keywords exclude : list string) (hours : Z).

#[local] Abbreviation within_hours' := (within_hours datetime_now).
#[local] Abbreviation filter_entry' := (filter_entry datetime_now str_lower keywords exclude hours).
#[local] Abbreviation normalize_entry' := (normalize_entry urlparse_netloc).
#[local] Abbreviation entries_loop' :=
  (entries_loop datetime_now urlparse_netloc str_lower keywords exclude hours).
#[local] Abbreviation feed_step' :=
  (feed_step feedparser_parse datetime_now urlparse_netloc str_lower
             keywords exclude hours).
#[local] Abbreviation feeds_loop' :=
  (feeds_loop feedparser_parse datetime_now urlparse_netloc str_lower
              keywords exclude hours).
#[local] Abbreviation fetch_jobs' :=
  (fetch_jobs feedparser_parse datetime_now urlparse_netloc str_lower
              keywords exclude hours).
#[local] Abbreviation try_feed' :=
  (try_feed feedparser_parse datetime_now urlparse_netloc str_lower
            keywords exclude hours).

Lemma within_hours_absent h w : within_hours' None h w = (Ok false, w).
Proof. reflexivity. Qed.

Lemma within_hours_true pp h w w' :
  within_hours' pp h w = (Ok true, w') ->
  exists t d, pp = Some t /\ datetime_of_struct t = Ok d.
Proof.
  unfold within_hours. destruct pp as [t|]; [|discriminate].
  destruct (datetime_of_struct t) as [d|ex] eqn:Hd; [|discriminate].
  intros _. by exists t, d.
Qed.

Lemma match_keywords_nil text : match_keywords str_lower text [] = true.
Proof. reflexivity. Qed.

Lemma match_exclusions_nil text : match_exclusions str_lower text [] = false.
Proof. reflexivity. Qed.

(** ** The entry filter (C4) *)

Lemma filter_entry_keep_spec (e : FeedEntry) (w w' : World) :
  filter_entry' e w = (Ok Keep, w')
  <-> within_hours' (entry_timestamp e) hours w = (Ok true, w')
      /\ match_keywords str_lower (entry_text e) keywords = true
      /\ match_exclusions str_lower (entry_text e) exclude = false.
Proof.
  unfold filter_entry.
  destruct (within_hours' (entry_timestamp e) hours w) as [[[|]|ex] w1]; simpl.
  - destruct (match_keywords str_lower (entry_text e) keywords); simpl.
    + destruct (match_exclusions str_lower (entry_text e) exclude); simpl.
      * split; [discriminate|]. by intros (_ & _ & ?).
      * split; [by intros [= ->]|]. by intros ([= ->] & _).
    + split; [discriminate|]. by intros (_ & ? & _).
  - split; [discriminate|]. by intros ([=] & _).
  - split; [discriminate|]. by intros ([=] & _).
Qed.

(** C4.  Control reaches [results.append(normalize_entry(e))] exactly when
    [within_hours] returns [True], [match_keywords] returns [True] and
    [match_exclusions] returns [False]; with no keywords every text matches,
    with no exclusions none is excluded, and an entry that matches an
    exclusion is skipped whatever else it matches. *)
Theorem filter_entry_keep_iff (e : FeedEntry) (w w' : World) :
  (filter_entry' e w = (Ok Keep, w')
   <-> within_hours' (entry_timestamp e) hours w = (Ok true, w')
       /\ match_keywords str_lower (entry_text e) keywords = true
       /\ match_exclusions str_lower (entry_text e) exclude = false)
  /\ (forall text, match_keywords str_lower text [] = true)
  /\ (forall text, match_exclusions str_lower text [] = false)
  /\ (match_exclusions str_lower (entry_text e) exclude = true ->
      filter_entry' e w <> (Ok Keep, w')).
Proof.
  split; [apply filter_entry_keep_spec|].
  split; [apply match_keywords_nil|].
  split; [apply match_exclusions_nil|].
  intros Hex Hkeep. apply filter_entry_keep_spec in Hkeep as (_ & _ & Hno).
  congruence.
Qed.

Lemma filter_entry_keep e w w' :
  filter_entry' e w = (Ok Keep, w') ->
  within_hours' (entry_timestamp e) hours w = (Ok true, w').
Proof. intros H. by apply filter_entry_keep_spec in H as [? _]. Qed.

(** The loop body appends a posting exactly for the entries the filter keeps
    and [normalize_entry] accepts. *)
Lemma entries_loop_one e results w :
  entries_loop' [e] results w
  = match filter_entry' e w with
    | (Raise ex, w') => (results, Some ex, w')
    | (Ok Skip, w') => (results, None, w')
    | (Ok Keep, w') =>
        match normalize_entry' e with
        | Ok p => (results ++ [Posting p], None, w')
        | Raise ex => (results, Some ex, w')
        end
    end.
Proof.
  simpl. destruct (filter_entry' e w) as [[[|]|ex] w1]; [done| |done].
  by destruct (normalize_entry' e).
Qed.

(** ** Postings are dated (C10) *)

Lemma normalize_entry_dated e t d p :
  entry_timestamp e = Some t -> datetime_of_struct t = Ok d ->
  normalize_entry' e = Ok p ->
  published p = Some (isoformat d).
Proof.
  unfold entry_timestamp, normalize_entry. intros Ht Hd.
  destruct (entry_published_parsed e) as [t1|].
  - injection Ht as ->. rewrite Hd.
    destruct (urlparse_netloc _); [|discriminate]. by intros [= <-].
  - rewrite Ht, Hd.
    destruct (urlparse_netloc _); [|discriminate]. by intros [= <-].
Qed.

Lemma entries_loop_dated entries : forall results w,
  Forall dated results ->
  Forall dated (entries_loop' entries results w).1.1.
Proof.
  induction entries as [|e rest IH]; intros results w Hres; simpl; [done|].
  destruct (filter_entry' e w) as [[[|]|ex] w1] eqn:Hf; simpl; [by apply IH| |done].
  destruct (normalize_entry' e) as [p|ex] eqn:Hn; simpl; [|done].
  apply IH. apply Forall_app. split; [done|].
  apply Forall_singleton. simpl.
  apply filter_entry_keep, within_hours_true in Hf as (t & d & Ht & Hd).
  exists d. split; [|split].
  - unfold datetime_of_struct in Hd. by apply datetime_new_ok in Hd as [_ ?].
  - unfold datetime_of_struct in Hd. by apply datetime_new_ok in Hd as [-> _].
  - by eapply normalize_entry_dated.
Qed.

Lemma feed_step_dated url results w :
  Forall dated results -> Forall dated (feed_step' url results w).1.
Proof.
  intros Hres. unfold feed_step.
  destruct (feedparser_parse url w) as [[entries|ex] w1].
  - pose proof (entries_loop_dated entries results w1 Hres) as Hl.
    destruct (entries_loop' entries results w1) as [[res' [ex|]] w2]; simpl in *;
      [|done].
    apply Forall_app. split; [done|]. by apply Forall_singleton.
  - simpl. apply Forall_app. split; [done|]. by apply Forall_singleton.
Qed.

Lemma feeds_loop_dated feeds : forall results w,
  Forall dated results -> Forall dated (feeds_loop' feeds results w).1.
Proof.
  induction feeds as [|url rest IH]; intros results w Hres; simpl; [done|].
  pose proof (feed_step_dated url results w Hres) as Hs.
  destruct (feed_step' url results w) as [res' w1]. by apply IH.
Qed.

Lemma Forall_aggregate (P : item -> Prop) results :
  Forall P results -> Forall P (aggregate results).
Proof.
  intros H. rewrite aggregate_perm.
  rewrite list.Forall_forall in H |- *. intros r Hr.
  apply H. eapply elem_of_sublist; [done|apply dedupe_sublist].
Qed.


(** C10.  Every posting [fetch_jobs] returns has a [published] value: a
    non-empty string, the ISO form of a whole-second UTC datetime (the
    timestamp that let the entry through the recency test).  Only the error
    records have none. *)
Theorem postings_have_published (feeds : list string) (w : World) :
  Forall (fun r => forall p, r = Posting p ->
            exists s d, published p = Some s /\ Str.truthy s = true
                        /\ validb d = true /\ microsecond d = 0
                        /\ s = isoformat d)
         (fetch_jobs' feeds w).1
  /\ (forall e, get_published (FetchError e) = None).
Proof.
  split; [|done]. unfold fetch_jobs.
  pose proof (feeds_loop_dated feeds [] w (Forall_nil_2 _)) as Hd.
  destruct (feeds_loop' feeds [] w) as [results w1]. simpl in *.
  apply (Forall_aggregate dated) in Hd.
  eapply Forall_impl; [exact Hd|].
  intros r Hr p ->. simpl in Hr. destruct Hr as (d & Hv & Hus & Hp).
  exists (isoformat d), d. auto using isoformat_truthy.
Qed.

(** ** One failing feed (C8) *)

Lemma entries_loop_acc entries : forall results w,
  entries_loop' entries results w
  = (results ++ (entries_loop' entries [] w).1.1,
     (entries_loop' entries [] w).1.2,
     (entries_loop' entries [] w).2).
Proof.
  induction entries as [|e rest IH]; intros results w; simpl.
  - by rewrite app_nil_r.
  - destruct (filter_entry' e w) as [[[|]|ex] w1]; simpl.
    + apply IH.
    + destruct (normalize_entry' e) as [p|ex]; simpl.
      * rewrite (IH (results ++ [Posting p])), (IH [Posting p]). simpl.
        by rewrite <- app_assoc.
      * by rewrite app_nil_r.
    + by rewrite app_nil_r.
Qed.

Lemma entries_loop_postings entries : forall results w,
  Forall (fun r => is_posting r = true) results ->
  Forall (fun r => is_posting r = true) (entries_loop' entries results w).1.1.
Proof.
  induction entries as [|e rest IH]; intros results w Hres; simpl; [done|].
  destruct (filter_entry' e w) as [[[|]|ex] w1]; simpl; [by apply IH| |done].
  destruct (normalize_entry' e) as [p|ex]; simpl; [|done].
  apply IH, Forall_app. split; [done|]. by apply Forall_singleton.
Qed.

Lemma try_feed_postings url w :
  Forall (fun r => is_posting r = true) (try_feed' url w).1.1.
Proof.
  unfold try_feed'. destruct (feedparser_parse url w) as [[entries|ex] w1].
  - by apply entries_loop_postings.
  - done.
Qed.

Lemma feed_step_try url results w :
  feed_step' url results w
  = (results ++ (try_feed' url w).1.1 ++ caught url (try_feed' url w).1.2,
     (try_feed' url w).2).
Proof.
  unfold feed_step, try_feed'.
  destruct (feedparser_parse url w) as [[entries|ex] w1]; [|done].
  rewrite entries_loop_acc.
  destruct (entries_loop' entries [] w1) as [[items [ex|]] w2]; simpl.
  - by rewrite <- app_assoc.
  - by rewrite app_nil_r.
Qed.

Lemma feeds_loop_acc feeds : forall results w,
  feeds_loop' feeds results w
  = (results ++ (feeds_loop' feeds [] w).1, (feeds_loop' feeds [] w).2).
Proof.
  induction feeds as [|url rest IH]; intros results w; simpl.
  - by rewrite app_nil_r.
  - rewrite !feed_step_try. simpl.
    rewrite (IH (results ++ _)), (IH (_ ++ _)). simpl.
    by rewrite <- !app_assoc.
Qed.

Lemma feeds_loop_app feeds1 feeds2 : forall results w,
  feeds_loop' (feeds1 ++ feeds2) results w
  = feeds_loop' feeds2 (feeds_loop' feeds1 results w).1
                       (feeds_loop' feeds1 results w).2.
Proof.
  induction feeds1 as [|url rest IH]; intros results w; simpl; [done|].
  destruct (feed_step' url results w) as [res' w1]. apply IH.
Qed.

(** C8, for the failures that are exceptions.  Whatever happens to one
    feed of the list, the loop goes on: its result is what the feeds before
    it gave, then the postings this feed appended before an exception ended
    its [try] block (if one did), then one error record for it exactly when
    an exception was raised, then what the feeds after it give when run from
    the world it left.  Nothing but postings comes from the [try] block
    itself, so an exception accounts for a single record and a block that
    raised nothing for none; and every item the other feeds contributed is
    represented in the output by an item with its de-duplication key. *)
Theorem failing_feed_is_isolated (feeds1 : list string) (url : string)
    (feeds2 : list string) (w : World) :
  let before := feeds_loop' feeds1 [] w in
  let this := try_feed' url before.2 in
  let after := feeds_loop' feeds2 [] this.2 in
  feeds_loop' (feeds1 ++ url :: feeds2) [] w
  = (before.1 ++ this.1.1 ++ caught url this.1.2 ++ after.1, after.2)
  /\ Forall (fun r => is_posting r = true) this.1.1
  /\ (forall ex, this.1.2 = Some ex -> caught url this.1.2 = [error_record url ex])
  /\ (this.1.2 = None -> caught url this.1.2 = [])
  /\ (forall r, r ∈ before.1 ++ after.1 ->
        exists r', r' ∈ (fetch_jobs' (feeds1 ++ url :: feeds2) w).1
                   /\ dedup_key r' = dedup_key r).
Proof.
  intros before this after.
  assert (Heq : feeds_loop' (feeds1 ++ url :: feeds2) [] w
    = (before.1 ++ this.1.1 ++ caught url this.1.2 ++ after.1, after.2)).
  { rewrite feeds_loop_app. simpl. rewrite feed_step_try.
    rewrite feeds_loop_acc. fold before this after.
    by rewrite <- !app_assoc. }
  split; [exact Heq|].
  split; [apply try_feed_postings|].
  split; [by intros ex ->|].
  split; [by intros ->|].
  intros r Hr. unfold fetch_jobs. rewrite Heq. simpl.
  apply aggregate_covers.
  apply elem_of_app in Hr as [Hr|Hr].
  - apply elem_of_app. by left.
  - apply elem_of_app. right. apply elem_of_app. right.
    apply elem_of_app. by right.
Qed.

End PipelineFacts.

(** C8, the failure that is not an exception.  The first feed of the list
    cannot be reached, and [feedparser.parse] says so in its result ([bozo]
    set, the exception kept, no entries) without raising: the [except]
    branch is not entered, and the output is the posting of the other feed
    with no error record for the feed that failed. *)
Lemma unraised_failure_leaves_no_record :
  (Sample.parse_quietly "feedB" (Sample.one_entry "DevOps Engineer opening")).1
  = Ok (mk_parsed [] true (Some (OtherError "connection refused")))
  /\ (fetch_jobs (entries_of Sample.parse_quietly) Sample.now Sample.netloc
                 Sample.lower ["devops"] [] 24 ["feedB"; "feedA"]
                 (Sample.one_entry "DevOps Engineer opening")).1
     = [Sample.opening]
  /\ List.filter is_error [Sample.opening] = [].
Proof. split; [|split]; vm_compute; reflexivity. Qed.

(* ===================================================================== *)
(** * The recency test (C3) *)
(* ===================================================================== *)


Lemma timedelta_hours_spec hours :
  Z.abs hours <= 999999999 * 24 ->
  exists delta, timedelta_hours hours = Ok delta /\ duration delta = window hours.
Proof.
  intros Hh. unfold timedelta_hours, C_INT_MIN, C_INT_MAX, MAX_DELTA_DAYS.
  assert (Hc : (hours * 3600 / 86400 <? -2147483648)
               || (2147483647 <? hours * 3600 / 86400) = false).
  { apply orb_false_iff. rewrite !Z.ltb_ge. Z.div_mod_to_equations. lia. }
  assert (Hb : (999999999 <? Z.abs (hours * 3600 / 86400)) = false).
  { apply Z.ltb_ge. Z.div_mod_to_equations. lia. }
  rewrite Hc, Hb. eexists. split; [reflexivity|].
  unfold duration, window, US_PER_SECOND. simpl.
  Z.div_mod_to_equations. lia.
Qed.

Section WithinHoursFacts.

Context {World : Type}.
Variable datetime_now : World -> datetime * World.

(** C3, as the code has it.  Whatever [hours] is, an entry without a
    timestamp is excluded, and skipped by the filter whatever its text; and
    a timestamp the constructor rejects gives no answer but the
    constructor's exception.  For a timestamp the constructor accepts, and a
    window of [hours >= 0] hours that does not reach back before
    0001-01-01T00:00:00 UTC, [within_hours] reads the clock once and returns
    whether the timestamp is at most [hours] hours older than the reading:
    exactly [hours] hours old passes, anything older does not. *)
Theorem within_hours_window (hours : Z) (w : World) :
  within_hours datetime_now None hours w = (Ok false, w)
  /\ (forall str_lower keywords exclude e,
        entry_timestamp e = None ->
        filter_entry datetime_now str_lower keywords exclude hours e w
        = (Ok Skip, w))
  /\ (forall t ex,
        datetime_of_struct t = Raise ex ->
        within_hours datetime_now (Some t) hours w = (Raise ex, w))
  /\ (validb (datetime_now w).1 = true ->
      0 <= hours ->
      window hours <= instant (datetime_now w).1 ->
      forall t published_dt,
        datetime_of_struct t = Ok published_dt ->
        within_hours datetime_now (Some t) hours w
        = (Ok (instant (datetime_now w).1 - instant published_dt
               <=? window hours),
           (datetime_now w).2)).
Proof.
  split; [reflexivity|].
  split; [intros str_lower keywords exclude e He; unfold filter_entry;
          by rewrite He|].
  split; [intros t ex Hd; unfold within_hours; by rewrite Hd|].
  intros Hnow Hh Hwin t d Hd. unfold within_hours. rewrite Hd.
  destruct (datetime_now w) as [now w'] eqn:Hclock. simpl in *.
  pose proof (instant_range now Hnow) as Hr.
  destruct (timedelta_hours_spec hours) as (delta & -> & Hdelta).
  { unfold window, MAXORDINAL, US_PER_DAY, US_PER_SECOND in *. lia. }
  unfold datetime_sub. rewrite Hdelta.
  destruct (of_instant_spec (instant now - window hours)) as (cutoff & -> & Hv & Hi).
  { unfold window, US_PER_SECOND in *. lia. }
  unfold datetime_of_struct in Hd. apply datetime_new_ok in Hd as [_ Hvd].
  rewrite (datetime_geb_instant d cutoff Hvd Hv), Hi.
  f_equal. f_equal.
  destruct (Z.leb_spec (instant now - window hours) (instant d));
    symmetry; [apply Z.leb_le|apply Z.leb_gt]; lia.
Qed.

(** With a window that reaches back before the first day of the calendar,
    the subtraction raises and [within_hours] returns nothing. *)
Lemma within_hours_overflow (t : struct_time) (published_dt : datetime)
    (hours : Z) (w : World) :
  validb (datetime_now w).1 = true ->
  datetime_of_struct t = Ok published_dt ->
  instant (datetime_now w).1 < window hours ->
  exists ex, within_hours datetime_now (Some t) hours w
             = (Raise ex, (datetime_now w).2).
Proof.
  intros Hnow Hd Hwin. unfold within_hours. rewrite Hd.
  destruct (datetime_now w) as [now w'] eqn:Hclock. simpl in *.
  destruct (timedelta_hours hours) as [delta|ex] eqn:Htd; [|eauto].
  assert (Hdelta : duration delta = window hours).
  { unfold timedelta_hours in Htd.
    destruct ((hours * 3600 / 86400 <? C_INT_MIN)
              || (C_INT_MAX <? hours * 3600 / 86400)); [discriminate|].
    destruct (MAX_DELTA_DAYS <? Z.abs (hours * 3600 / 86400)); [discriminate|].
    injection Htd as <-. unfold duration, window, US_PER_SECOND. simpl.
    Z.div_mod_to_equations. lia. }
  unfold datetime_sub. rewrite Hdelta.
  pose proof (of_instant_overflow (instant now - window hours) ltac:(lia)) as Ho.
  destruct (of_instant (instant now - window hours)); [discriminate|eauto].
Qed.

End WithinHoursFacts.

Lemma within_hours_window_witness :
  within_hours Sample.now None 24 Sample.world1 = (Ok false, Sample.world1)
  /\ (forall str_lower keywords exclude e,
        entry_timestamp e = None ->
        filter_entry Sample.now str_lower keywords exclude 24 e Sample.world1
        = (Ok Skip, Sample.world1))
  /\ (forall t ex,
        datetime_of_struct t = Raise ex ->
        within_hours Sample.now (Some t) 24 Sample.world1
        = (Raise ex, Sample.world1))
  /\ forall t published_dt,
       datetime_of_struct t = Ok published_dt ->
       within_hours Sample.now (Some t) 24 Sample.world1
       = (Ok (instant Sample.at_noon - instant published_dt <=? window 24),
          Sample.world1).
Proof.
  destruct (within_hours_window Sample.now 24 Sample.world1)
    as (Hnone & Hskip & Hbad & Hin).
  split; [exact Hnone|]. split; [exact Hskip|]. split; [exact Hbad|].
  apply Hin.
  - reflexivity.
  - lia.
  - vm_compute. discriminate.
Defined.

Lemma within_hours_overflow_witness :
  exists ex, within_hours Sample.now (Some (Sample.time_of 2026 11 3 11 0 0))
                          20000000 Sample.world1
             = (Raise ex, Sample.world1).
Proof.
  apply (within_hours_overflow Sample.now (Sample.time_of 2026 11 3 11 0 0)
           (mk_datetime 2026 11 3 11 0 0 0) 20000000 Sample.world1).
  - reflexivity.
  - reflexivity.
  - vm_compute. reflexivity.
Defined.

(** The boundary is inclusive: exactly 24 hours old passes, one second more
    does not. *)
Example within_hours_boundary :
  within_hours Sample.now (Some (Sample.time_of 2026 11 2 12 0 0)) 24 Sample.world1
  = (Ok true, Sample.world1)
  /\ within_hours Sample.now (Some (Sample.time_of 2026 11 2 11 59 59)) 24
                  Sample.world1
     = (Ok false, Sample.world1).
Proof. split; vm_compute; reflexivity. Qed.

(** A timestamp one hour old with a window of 20 000 000 hours (some 2 283
    years, which reaches back before year 1): the timestamp is present and
    well within the window, and [within_hours] raises [OverflowError]
    instead of returning [True]. *)
Lemma within_hours_large_window_raises :
  0 <= 20000000
  /\ datetime_of_struct (Sample.time_of 2026 11 3 11 0 0)
     = Ok (mk_datetime 2026 11 3 11 0 0 0)
  /\ instant Sample.at_noon - instant (mk_datetime 2026 11 3 11 0 0 0)
     <= window 20000000
  /\ within_hours Sample.now (Some (Sample.time_of 2026 11 3 11 0 0)) 20000000
                  Sample.world1
     = (Raise (OverflowError "date value out of range"), Sample.world1).
Proof.
  split; [lia|]. split; [reflexivity|].
  split; [vm_compute; discriminate|]. vm_compute. reflexivity.
Qed.

(* ===================================================================== *)
(** * The Feed Source Reader (C7) *)
(* ===================================================================== *)

Lemma lstrip_first_non_space l :
  match Str.first_non_space l with
  | None => Str.lstrip l = ""
  | Some c => Str.isspace c = false /\ exists s, Str.lstrip l = String c s
  end.
Proof.
  induction l as [|c l IH]; simpl; [done|].
  destruct (Str.isspace c) eqn:Hc; [done|]. eauto.
Qed.

Lemma rstrip_keeps_head c s :
  Str.isspace c = false -> exists r, Str.rstrip (String c s) = String c r.
Proof.
  intros Hc. simpl. destruct (Str.rstrip s); [|eauto].
  rewrite Hc. eauto.
Qed.

(** The stripped line starts at the first non-blank character of the line
    and is empty when there is none. *)
Lemma strip_first_non_space l :
  match Str.first_non_space l with
  | None => Str.strip l = ""
  | Some c => exists r, Str.strip l = String c r
  end.
Proof.
  unfold Str.strip. pose proof (lstrip_first_non_space l) as H.
  destruct (Str.first_non_space l) as [c|].
  - destruct H as (Hc & s & ->). by apply rstrip_keeps_head.
  - by rewrite H.
Qed.

Lemma startswith_hash c r :
  Str.startswith (String c r) "#" = Ascii.eqb c "#"%char.
Proof.
  unfold Str.startswith. cbn [String.prefix].
  destruct (ascii_dec "#" c) as [<-|Hne].
  - by destruct r.
  - symmetry. apply Ascii.eqb_neq. congruence.
Qed.

Lemma feed_line_test line :
  Str.truthy (Str.strip line) && negb (Str.startswith (Str.strip line) "#") = true
  <-> feed_line line.
Proof.
  unfold feed_line. pose proof (strip_first_non_space line) as H.
  destruct (Str.first_non_space line) as [c|].
  - destruct H as (r & ->). rewrite startswith_hash. cbn [Str.truthy andb].
    destruct (Ascii.eqb_spec c "#"%char) as [->|Hne]; simpl.
    + split; [discriminate|]. by intros [_ ?].
    + split; [|done]. intros _. split; [done|]. intros [= Hc]. by apply Hne.
  - rewrite H. simpl. split; [discriminate|]. by intros [? _].
Qed.

Lemma bool_filter_Prop {A} (f : A -> bool) (P : A -> Prop)
    `{forall x, Decision (P x)} (l : list A) :
  (forall x, f x = true <-> P x) -> List.filter f l = filter P l.
Proof.
  intros Hfp. induction l as [|x l IH]; simpl; [done|].
  rewrite filter_cons. destruct (f x) eqn:Hf.
  - rewrite decide_True by (by apply Hfp). by rewrite IH.
  - rewrite decide_False; [done|]. intros HP. apply Hfp in HP. congruence.
Qed.

Lemma parse_env_list_eq value :
  parse_env_list value
  = map Str.strip
      (List.filter (fun v => Str.truthy (Str.strip v)) (Str.split ","%char value)).
Proof. unfold parse_env_list. by destruct value. Qed.

(** C7.  [parse_env_list] gives the comma-separated entries, trimmed, the
    empty ones dropped.  When that list is not empty it is the result,
    whatever the file system holds (the file is not looked at); when it is
    empty the result is the kept lines of the file, trimmed, and the empty
    list when the file does not exist. *)
Theorem resolve_feeds_precedence (fs : FileSystem)
    (feed_urls_env feeds_file : string) :
  let explicit :=
    map Str.strip
      (List.filter (fun v => Str.truthy (Str.strip v))
                   (Str.split ","%char feed_urls_env)) in
  parse_env_list feed_urls_env = explicit
  /\ (explicit <> [] ->
      forall fs' : FileSystem,
        resolve_feeds fs' feed_urls_env feeds_file = Ok explicit)
  /\ (explicit = [] -> fs feeds_file = None ->
      resolve_feeds fs feed_urls_env feeds_file = Ok [])
  /\ (explicit = [] -> feeds_file <> "" ->
      forall lines, fs feeds_file = Some (Ok lines) ->
        resolve_feeds fs feed_urls_env feeds_file
        = Ok (map Str.strip (filter feed_line lines))).
Proof.
  intros explicit. pose proof (parse_env_list_eq feed_urls_env) as Hp.
  fold explicit in Hp.
  split; [done|]. unfold resolve_feeds. rewrite Hp.
  split; [|split].
  - intros Hne fs'. by destruct explicit.
  - intros -> Hfs. unfold load_feeds_from_file. rewrite Hfs.
    by destruct (Str.truthy feeds_file).
  - intros -> Hpath lines Hfs. unfold load_feeds_from_file. rewrite Hfs.
    destruct feeds_file; [done|]. simpl.
    by rewrite (bool_filter_Prop _ feed_line _ feed_line_test).
Qed.

Example resolve_feeds_explicit :
  resolve_feeds (fun _ => Some (Raise (OtherError "not read")))
                " https://a.example/rss , ,https://b.example/atom" "feeds.txt"
  = Ok ["https://a.example/rss"; "https://b.example/atom"].
Proof. reflexivity. Qed.

Example resolve_feeds_file :
  resolve_feeds (fun p => if String.eqb p "feeds.txt"
                          then Some (Ok ["# feeds"; ""; "  https://a.example/rss ";
                                         "   # off"; "https://b.example/atom"])
                          else None)
                " , " "feeds.txt"
  = Ok ["https://a.example/rss"; "https://b.example/atom"].
Proof. reflexivity. Qed.

(* ===================================================================== *)
(** * The façade (C2, C9) *)
(* ===================================================================== *)

Lemma print_items_postings (ps : list JobPosting) : forall out,
  print_items (Posting <$> ps) out = (out ++ concat (posting_lines <$> ps), None).
Proof.
  induction ps as [|p ps IH]; intros out; simpl.
  - by rewrite app_nil_r.
  - unfold posting_lines at 1.
    destruct (published p) as [s|]; [destruct (Str.truthy s)|];
      rewrite IH; simpl; by rewrite <- !app_assoc.
Qed.

(** The listing stops at the first error record: reading its ["title"]
    raises [KeyError]. *)
Lemma print_items_fetch_error (ps : list JobPosting) e rest out :
  print_items ((Posting <$> ps) ++ FetchError e :: rest) out
  = (out ++ concat (posting_lines <$> ps), Some (KeyError "title")).
Proof.
  revert out. induction ps as [|p ps IH]; intros out; simpl.
  - by rewrite app_nil_r.
  - unfold posting_lines at 1.
    destruct (published p) as [s|]; [destruct (Str.truthy s)|];
      rewrite IH; simpl; by rewrite <- !app_assoc.
Qed.

Section FacadeFacts.

Context {World : Type}.
Variable feedparser_parse : string -> World -> result (list FeedEntry) * World.
Variable datetime_now : World -> datetime * World.
Variable urlparse_netloc : string -> result string.
Variable str_lower : string -> string.
Variable py_int : string -> option Z.
Variable py_repr : list string -> string.

(** C9.  When the configuration resolves to no feeds, [/jobs] answers with
    status 400 and an error message, and the one-shot run prints one message
    and returns; in both cases the world is left as it was found, whatever
    [feedparser.parse] would have done: the pipeline is not run. *)
Theorem no_feeds_is_reported (env : Environ) (fs : FileSystem) (cfg : Config)
    (w : World) :
  get_config str_lower py_int env fs = Ok cfg ->
  cfg_feeds cfg = [] ->
  (forall hours keywords exclude,
      jobs feedparser_parse datetime_now urlparse_netloc str_lower py_int
           hours keywords exclude env fs w
      = (Ok (JSONResponse 400 NO_FEEDS_HTTP), w))
  /\ main feedparser_parse datetime_now urlparse_netloc str_lower py_int
          py_repr true env fs w
     = ([NO_FEEDS_CLI], Returned, w).
Proof.
  intros Hcfg Hfeeds. split.
  - intros hours keywords exclude. unfold jobs. by rewrite Hcfg, Hfeeds.
  - unfold main. by rewrite Hcfg, Hfeeds.
Qed.

(** C2.  When an error record is among the first 25 items, the one-shot
    run prints the summary line and the listing of the postings that come
    before the record, and then ends with the [KeyError] that reading the
    record's ["title"] raises: nothing in [main] catches it. *)
Theorem main_once_fault_on_fetch_error (env : Environ) (fs : FileSystem)
    (cfg : Config) (w w' : World) (items : list item)
    (ps : list JobPosting) (e : string) (rest : list item) :
  get_config str_lower py_int env fs = Ok cfg ->
  cfg_feeds cfg <> [] ->
  run_pipeline feedparser_parse datetime_now urlparse_netloc str_lower
               (cfg_keywords cfg) (cfg_exclude cfg) (cfg_hours cfg)
               (cfg_feeds cfg) w = (items, w') ->
  take 25 items = (Posting <$> ps) ++ FetchError e :: rest ->
  main feedparser_parse datetime_now urlparse_netloc str_lower py_int py_repr
       true env fs w
  = (summary_line py_repr items cfg :: concat (posting_lines <$> ps),
     Unhandled (KeyError "title"), w').
Proof.
  intros Hcfg Hfeeds Hrun Htake. unfold main. rewrite Hcfg.
  destruct (cfg_feeds cfg) as [|url feeds] eqn:Hf; [done|].
  rewrite Hrun, Htake, print_items_fetch_error. reflexivity.
Qed.

End FacadeFacts.

Lemma no_feeds_is_reported_witness :
  get_config Sample.lower Sample.int Sample.no_env Sample.no_fs
  = Ok (mk_config [] DEFAULT_KEYWORDS [] 24)
  /\ (forall hours keywords exclude,
        jobs Sample.parse Sample.now Sample.netloc Sample.lower Sample.int
             hours keywords exclude Sample.no_env Sample.no_fs Sample.world1
        = (Ok (JSONResponse 400 NO_FEEDS_HTTP), Sample.world1))
  /\ main Sample.parse Sample.now Sample.netloc Sample.lower Sample.int
          Sample.repr true Sample.no_env Sample.no_fs Sample.world1
     = ([NO_FEEDS_CLI], Returned, Sample.world1).
Proof.
  split; [reflexivity|].
  apply (no_feeds_is_reported Sample.parse Sample.now Sample.netloc Sample.lower
           Sample.int Sample.repr Sample.no_env Sample.no_fs
           (mk_config [] DEFAULT_KEYWORDS [] 24) Sample.world1);
    reflexivity.
Defined.

Lemma main_once_fault_on_fetch_error_witness :
  main Sample.parse Sample.now Sample.netloc Sample.lower Sample.int Sample.repr
       true (Sample.env_of [("FEED_URLS", "feedA,feedB")]) Sample.no_fs
       Sample.world1
  = (["Found 3 postings in last 24h matching ['devops', 'cloud engineer', 'site reliability', 'sre', 'platform engineer', 'infrastructure']";
      "- DevOps Intern  [a.example]"; "  https://a.example/2";
      "  published: 2026-11-03T11:30:00+00:00";
      "- DevOps Engineer opening  [a.example]"; "  https://a.example/1";
      "  published: 2026-11-03T11:00:00+00:00"],
     Unhandled (KeyError "title"), Sample.world1).
Proof.
  apply (main_once_fault_on_fetch_error Sample.parse Sample.now Sample.netloc
           Sample.lower Sample.int Sample.repr
           (Sample.env_of [("FEED_URLS", "feedA,feedB")]) Sample.no_fs
           (mk_config ["feedA"; "feedB"] DEFAULT_KEYWORDS [] 24)
           Sample.world1 Sample.world1
           [Posting (mk_posting "DevOps Intern" "https://a.example/2" ""
                       (Some "2026-11-03T11:30:00+00:00") "a.example");
            Posting (mk_posting "DevOps Engineer opening" "https://a.example/1" ""
                       (Some "2026-11-03T11:00:00+00:00") "a.example");
            FetchError "Failed to parse feedB: connection refused"]
           [mk_posting "DevOps Intern" "https://a.example/2" ""
              (Some "2026-11-03T11:30:00+00:00") "a.example";
            mk_posting "DevOps Engineer opening" "https://a.example/1" ""
              (Some "2026-11-03T11:00:00+00:00") "a.example"]
           "Failed to parse feedB: connection refused" []).
  - reflexivity.
  - discriminate.
  - vm_compute. reflexivity.
  - reflexivity.
Defined.

(* ===================================================================== *)
(** * The model at work: the scenarios of the specification *)
(* ===================================================================== *)

Example strip_example : Str.strip "  a b	 " = "a b".
Proof. reflexivity. Qed.

Example split_example : Str.split ","%char "a,,b," = ["a"; ""; "b"; ""].
Proof. reflexivity. Qed.

Example contains_example :
  Str.contains "senior devops engineer" "devops" = true
  /\ Str.contains "abc" "" = true
  /\ Str.contains "abc" "bd" = false.
Proof. repeat split; reflexivity. Qed.

Example parse_env_list_example :
  parse_env_list " devops, ,SRE ,," = ["devops"; "SRE"]
  /\ parse_env_list "" = [] /\ parse_env_list " , " = [].
Proof. repeat split; reflexivity. Qed.

Example ordinal_example :
  ymd2ord 2000 1 1 = 730120 /\ ord2ymd 730120 = (2000, 1, 1)
  /\ ord2ymd (ymd2ord 2024 2 29) = (2024, 2, 29)
  /\ ord2ymd MAXORDINAL = (9999, 12, 31).
Proof. repeat split; reflexivity. Qed.

Example isoformat_example :
  isoformat (mk_datetime 2026 11 3 9 5 0 0) = "2026-11-03T09:05:00+00:00".
Proof. reflexivity. Qed.

Module Scenario.

Import Sample.

(** The entry matches the keyword and is recent: it is the result. *)
Example single_matching_entry :
  run ["devops"] [] 24 ["feedA"] (one_entry "DevOps Engineer opening") = [opening].
Proof. vm_compute. reflexivity. Qed.

(** The entry matches a keyword and an exclusion: it is left out. *)
Example excluded_entry :
  run ["devops"] ["intern"] 24 ["feedA"] (one_entry "DevOps Intern") = [].
Proof. vm_compute. reflexivity. Qed.

(** One feed fails, the other contributes: one posting and one error
    record. *)
Example one_feed_unreachable :
  run ["devops"] [] 24 ["feedB"; "feedA"] (one_entry "DevOps Engineer opening")
  = [opening; FetchError "Failed to parse feedB: connection refused"].
Proof. vm_compute. reflexivity. Qed.

(** Two feeds fail: the record of the second is lost in the
    de-duplication. *)
Example two_feeds_unreachable :
  run ["devops"] ["intern"] 24 ["feedA"; "feedB"; "feedC"] world1
  = [Posting {| title := "DevOps Engineer opening"; link := "https://a.example/1";
                summary := ""; published := Some "2026-11-03T11:00:00+00:00";
                source := "a.example" |};
     FetchError "Failed to parse feedB: connection refused"].
Proof. vm_compute. reflexivity. Qed.

(** A link [urlparse] rejects ends the feed: the postings appended before
    it stay, the entries after it are lost. *)
Example bad_link_ends_the_feed :
  run [] [] 24 ["feedA"]
      (mk_world at_noon
         [("feedA", Ok [entry "first" "https://a.example/1"
                              (Some (time_of 2026 11 3 11 0 0));
                        entry "second" "https://[a.example/2"
                              (Some (time_of 2026 11 3 11 0 0));
                        entry "third" "https://a.example/3"
                              (Some (time_of 2026 11 3 11 0 0))])])
  = [Posting {| title := "first"; link := "https://a.example/1"; summary := "";
                published := Some "2026-11-03T11:00:00+00:00";
                source := "a.example" |};
     FetchError "Failed to parse feedA: Invalid IPv6 URL"].
Proof. vm_compute. reflexivity. Qed.

(** With a window of 20 000 000 hours every dated entry makes its feed
    fail. *)
Example huge_window :
  run ["devops"] [] 20000000 ["feedA"] (one_entry "DevOps Engineer opening")
  = [FetchError "Failed to parse feedA: date value out of range"].
Proof. vm_compute. reflexivity. Qed.

(** A run without a failing feed prints its listing and returns. *)
Example main_once_listing :
  main parse now netloc lower int repr true
       (env_of [("FEED_URLS", "feedA"); ("KEYWORDS", "DevOps")]) no_fs
       (one_entry "DevOps Engineer opening")
  = (["Found 1 postings in last 24h matching ['devops']";
      "- DevOps Engineer opening  [a.example]"; "  https://a.example/1";
      "  published: 2026-11-03T11:00:00+00:00"],
     Returned, one_entry "DevOps Engineer opening").
Proof. vm_compute. reflexivity. Qed.

End Scenario.

(* ===================================================================== *)
(** * Further properties: strings and configuration *)
(* ===================================================================== *)

(** The digits of a number do not depend on how far the recursion of
    [digits_fuel] may go, once it may go as far as the number has binary
    digits: [str(z)] is cut nowhere. *)
Lemma digits_fuel_more (f : nat) : forall (g : nat) (n : Z) (acc : string),
  (0 < f <= g)%nat -> 0 <= n < 2 ^ Z.of_nat f ->
  Str.digits_fuel g n acc = Str.digits_fuel f n acc.
Proof.
  induction f as [|f IH]; intros g n acc [Hf Hg] Hn; [lia|].
  destruct g as [|g]; [lia|]. cbn [Str.digits_fuel].
  destruct (n / 10 =? 0) eqn:Hq; [done|]. apply Z.eqb_neq in Hq.
  rewrite Nat2Z.inj_succ, Z.pow_succ_r in Hn by lia.
  destruct f as [|f'].
  { exfalso. apply Hq. change (2 ^ Z.of_nat 0) with 1 in Hn.
    apply Z.div_small. lia. }
  apply IH; [lia|].
  split; [apply Z.div_pos; lia|].
  apply Z.div_lt_upper_bound; lia.
Qed.

Lemma of_Z_fuel (z : Z) (f : nat) :
  0 <= z -> (Z.to_nat (Z.log2 z) < f)%nat ->
  Str.of_Z z = Str.digits_fuel f z EmptyString.
Proof.
  intros Hz Hf. unfold Str.of_Z.
  destruct (z <? 0) eqn:Hneg; [apply Z.ltb_lt in Hneg; lia|].
  symmetry. apply digits_fuel_more; [lia|].
  split; [done|].
  rewrite Nat2Z.inj_succ, Z2Nat.id by apply Z.log2_nonneg.
  destruct (Z.eq_dec z 0) as [->|Hnz]; [done|].
  apply Z.log2_spec. lia.
Qed.

Lemma truthy_nonempty s : Str.truthy s = true <-> s <> "".
Proof. destruct s; simpl; split; (done || discriminate). Qed.

Lemma rstrip_idem s : Str.rstrip (Str.rstrip s) = Str.rstrip s.
Proof.
  induction s as [|c s IH]; [done|].
  cbn [Str.rstrip]. destruct (Str.rstrip s) as [|c' r] eqn:Hr.
  - destruct (Str.isspace c) eqn:Hc; [done|]. cbn. by rewrite Hc.
  - cbn [Str.rstrip]. cbn [Str.rstrip] in IH.
    destruct (Str.rstrip r) as [|c'' r'].
    + destruct (Str.isspace c'); [discriminate|]. by injection IH as ->.
    + by rewrite IH.
Qed.

Lemma lstrip_head c s : Str.isspace c = false -> Str.lstrip (String c s) = String c s.
Proof. intros Hc. cbn. by rewrite Hc. Qed.

(** Trimming a trimmed string changes nothing. *)
Lemma strip_idem s : Str.strip (Str.strip s) = Str.strip s.
Proof.
  unfold Str.strip. pose proof (lstrip_first_non_space s) as H.
  destruct (Str.first_non_space s) as [c|].
  - destruct H as (Hc & u & ->).
    destruct (rstrip_keeps_head c u Hc) as (r & Hr). rewrite Hr.
    rewrite lstrip_head by done. rewrite <- Hr. apply rstrip_idem.
  - by rewrite H.
Qed.

(** [c in s] for a character [c]. *)
Lemma contains_char_cons (a c : ascii) s :
  Str.contains (String a s) (String c "")
  = Ascii.eqb a c || Str.contains s (String c "").
Proof.
  cbn [Str.contains String.prefix].
  destruct (ascii_dec c a) as [->|Hne].
  - rewrite Ascii.eqb_refl. by destruct s.
  - destruct (Ascii.eqb_spec a c) as [->|_]; [done|]. done.
Qed.

Lemma contains_char_empty (c : ascii) : Str.contains "" (String c "") = false.
Proof. reflexivity. Qed.

Lemma lstrip_no_char (c : ascii) s :
  Str.contains s (String c "") = false ->
  Str.contains (Str.lstrip s) (String c "") = false.
Proof.
  induction s as [|a s IH]; [done|]. intros H. cbn [Str.lstrip].
  destruct (Str.isspace a); [|done].
  rewrite contains_char_cons in H. apply orb_false_elim in H as [_ H]. auto.
Qed.

Lemma rstrip_no_char (c : ascii) s :
  Str.contains s (String c "") = false ->
  Str.contains (Str.rstrip s) (String c "") = false.
Proof.
  induction s as [|a s IH]; [done|]. intros H.
  rewrite contains_char_cons in H. apply orb_false_elim in H as [Ha H].
  specialize (IH H). cbn [Str.rstrip].
  destruct (Str.rstrip s) as [|a' r].
  - destruct (Str.isspace a); [done|].
    rewrite contains_char_cons, Ha. done.
  - rewrite contains_char_cons, Ha. done.
Qed.

Lemma strip_no_char (c : ascii) s :
  Str.contains s (String c "") = false ->
  Str.contains (Str.strip s) (String c "") = false.
Proof. intros H. by apply rstrip_no_char, lstrip_no_char. Qed.

(** No piece of [s.split(sep)] holds the separator. *)
Lemma split_no_sep (sep : ascii) s :
  Forall (fun v => Str.contains v (String sep "") = false) (Str.split sep s).
Proof.
  induction s as [|a s IH]; cbn [Str.split].
  - by constructor.
  - destruct (Ascii.eqb_spec a sep) as [->|Hne].
    + by constructor.
    + destruct (Str.split sep s) as [|h t]; inv IH.
      * constructor; [|done]. rewrite contains_char_cons.
        by destruct (Ascii.eqb_spec a sep).
      * constructor; [|done]. rewrite contains_char_cons.
        destruct (Ascii.eqb_spec a sep); [done|]. done.
Qed.

Lemma split_nonempty (sep : ascii) s : Str.split sep s <> [].
Proof.
  destruct s as [|a s]; cbn [Str.split]; [done|].
  destruct (Ascii.eqb a sep); [done|]. by destruct (Str.split sep s).
Qed.

(** Splitting at the first separator. *)
Lemma split_app (sep : ascii) x rest :
  Str.contains x (String sep "") = false ->
  Str.split sep (x +:+ String sep rest) = x :: Str.split sep rest.
Proof.
  induction x as [|a x IH]; intros H.
  - rewrite append_empty. cbn [Str.split]. by rewrite Ascii.eqb_refl.
  - rewrite contains_char_cons in H. apply orb_false_elim in H as [Ha H].
    rewrite append_cons. cbn [Str.split]. rewrite Ha, IH by done. done.
Qed.

Lemma split_whole (sep : ascii) x :
  Str.contains x (String sep "") = false -> Str.split sep x = [x].
Proof.
  induction x as [|a x IH]; intros H; [done|].
  rewrite contains_char_cons in H. apply orb_false_elim in H as [Ha H].
  cbn [Str.split]. rewrite Ha, IH by done. done.
Qed.

(** [sep.join(l).split(sep)] gives [l] back when no entry of [l] holds the
    separator and [l] is not empty. *)
Lemma split_join (sep : ascii) l :
  l <> [] ->
  Forall (fun v => Str.contains v (String sep "") = false) l ->
  Str.split sep (Str.join (String sep "") l) = l.
Proof.
  intros Hne Hall. induction Hall as [|x l Hx Hall IH]; [done|].
  unfold Str.join in *. destruct l as [|y l].
  - cbn [String.concat]. by apply split_whole.
  - change (String.concat (String sep "") (x :: y :: l))
      with (x +:+ String sep "" +:+ String.concat (String sep "") (y :: l)).
    rewrite append_cons, append_empty, split_app by done.
    by rewrite IH.
Qed.

(** ** [parse_env_list] *)

Lemma parse_entries_clean (value : string) :
  Forall clean_entry (parse_env_list value).
Proof.
  rewrite parse_env_list_eq.
  pose proof (split_no_sep ","%char value) as Hsep.
  induction Hsep as [|v l Hv Hsep IH]; [constructor|].
  cbn [List.filter]. destruct (Str.truthy (Str.strip v)) eqn:Ht; [|exact IH].
  cbn [map]. constructor; [|exact IH].
  split; [by apply truthy_nonempty|].
  split; [apply strip_idem|by apply strip_no_char].
Qed.

(** Whatever the value, [parse_env_list] returns no empty entry, no entry
    with blanks around it and no entry with a comma in it. *)
Theorem parse_env_list_entries_clean (value : string) :
  Forall clean_entry (parse_env_list value).
Proof. apply parse_entries_clean. Qed.

Lemma clean_entries_kept l :
  Forall clean_entry l ->
  map Str.strip (List.filter (fun v => Str.truthy (Str.strip v)) l) = l.
Proof.
  induction 1 as [|v l (Hne & Hs & _) Hall IH]; [done|].
  cbn [List.filter]. rewrite Hs.
  assert (Str.truthy v = true) as -> by (by apply truthy_nonempty).
  cbn [map]. by rewrite Hs, IH.
Qed.

Lemma parse_join_clean (l : list string) :
  Forall clean_entry l -> parse_env_list (Str.join "," l) = l.
Proof.
  intros Hall. destruct l as [|x l]; [done|].
  rewrite parse_env_list_eq, split_join.
  - by apply clean_entries_kept.
  - done.
  - eapply Forall_impl; [exact Hall|]. by intros v (_ & _ & ?).
Qed.

(** Joining clean entries with commas and parsing the result gives the
    entries back. *)
Theorem parse_env_list_join (l : list string) :
  Forall clean_entry l -> parse_env_list (Str.join "," l) = l.
Proof. apply parse_join_clean. Qed.

Lemma default_keywords_clean : Forall clean_entry DEFAULT_KEYWORDS.
Proof. repeat constructor; discriminate. Qed.

Lemma parse_env_list_join_witness :
  parse_env_list (Str.join "," DEFAULT_KEYWORDS) = DEFAULT_KEYWORDS.
Proof. apply (parse_env_list_join DEFAULT_KEYWORDS), default_keywords_clean. Defined.

(** ** [load_feeds_from_file] *)

Lemma load_lines_clean (fs : FileSystem) (path : string) (feeds : list string) :
  load_feeds_from_file fs path = Ok feeds -> Forall clean_line feeds.
Proof.
  unfold load_feeds_from_file.
  destruct (Str.truthy path); simpl; [|by intros [= <-]].
  destruct (fs path) as [[lines|ex]|]; [|discriminate|by intros [= <-]].
  intros [= <-]. induction lines as [|v lines IH]; [constructor|].
  cbn [List.filter].
  destruct (Str.truthy (Str.strip v)) eqn:Ht; [|exact IH].
  destruct (Str.startswith (Str.strip v) "#") eqn:Hh; [exact IH|].
  cbn [andb negb map]. constructor; [|exact IH].
  split; [by apply truthy_nonempty|]. split; [apply strip_idem|done].
Qed.

(** Every line [load_feeds_from_file] returns is non-empty, trimmed and not
    a comment. *)
Theorem load_feeds_lines_clean (fs : FileSystem) (path : string)
    (feeds : list string) :
  load_feeds_from_file fs path = Ok feeds -> Forall clean_line feeds.
Proof. apply load_lines_clean. Qed.

Lemma load_feeds_lines_clean_witness :
  Forall clean_line ["https://a.example/rss"; "https://b.example/atom"].
Proof.
  apply (load_feeds_lines_clean
           (fun p => if String.eqb p "feeds.txt"
                     then Some (Ok ["# feeds"; ""; "  https://a.example/rss ";
                                    "   # off"; "https://b.example/atom"])
                     else None)
           "feeds.txt").
  reflexivity.
Defined.

(** ** [get_config] *)

Section ConfigFacts.

Variable str_lower : string -> string.
Variable py_int : string -> option Z.

Lemma get_config_ok env fs cfg :
  get_config str_lower py_int env fs = Ok cfg ->
  exists h feeds,
    py_int (getenv env "HOURS" "24") = Some h
    /\ resolve_feeds fs (getenv env "FEED_URLS" "")
                        (getenv env "FEEDS_FILE" "feeds.example.txt") = Ok feeds
    /\ cfg = {| cfg_feeds := feeds;
                cfg_keywords :=
                  map str_lower
                    (parse_env_list
                       (getenv env "KEYWORDS" (Str.join "," DEFAULT_KEYWORDS)));
                cfg_exclude :=
                  map str_lower (parse_env_list (getenv env "EXCLUDE_KEYWORDS" ""));
                cfg_hours := h |}.
Proof.
  unfold get_config. destruct (py_int _) as [h|]; [|discriminate].
  destruct (resolve_feeds _ _ _) as [feeds|ex]; [|discriminate].
  intros [= <-]. by exists h, feeds.
Qed.

(** The keywords of a configuration are the entries of [KEYWORDS] in lower
    case: the built-in list when the variable is not set, the list [l] when
    it is set to the clean entries of [l] joined by commas; and nothing is
    excluded when [EXCLUDE_KEYWORDS] is not set. *)
Theorem get_config_keywords (env : Environ) (fs : FileSystem) (cfg : Config) :
  get_config str_lower py_int env fs = Ok cfg ->
  (env "KEYWORDS" = None -> cfg_keywords cfg = map str_lower DEFAULT_KEYWORDS)
  /\ (forall l, Forall clean_entry l ->
        env "KEYWORDS" = Some (Str.join "," l) ->
        cfg_keywords cfg = map str_lower l)
  /\ (env "EXCLUDE_KEYWORDS" = None -> cfg_exclude cfg = []).
Proof.
  intros (h & feeds & _ & _ & ->)%get_config_ok. cbn [cfg_keywords cfg_exclude].
  unfold getenv. split; [|split].
  - intros ->. cbn [from_option].
    by rewrite (parse_join_clean DEFAULT_KEYWORDS default_keywords_clean).
  - intros l Hl ->. cbn [from_option]. unfold id. by rewrite parse_join_clean.
  - by intros ->.
Qed.

(** No feed URL of a configuration is empty or has blanks around it. *)
Theorem get_config_feeds_trimmed (env : Environ) (fs : FileSystem) (cfg : Config) :
  get_config str_lower py_int env fs = Ok cfg ->
  Forall (fun url => url <> "" /\ Str.strip url = url) (cfg_feeds cfg).
Proof.
  intros (h & feeds & _ & Hr & ->)%get_config_ok. cbn [cfg_feeds].
  unfold resolve_feeds in Hr.
  pose proof (parse_entries_clean (getenv env "FEED_URLS" "")) as Hc.
  destruct (parse_env_list (getenv env "FEED_URLS" "")) as [|u us].
  - apply load_lines_clean in Hr.
    eapply Forall_impl; [exact Hr|]. by intros v (? & ? & _).
  - injection Hr as <-.
    eapply Forall_impl; [exact Hc|]. by intros v (? & ? & _).
Qed.

End ConfigFacts.

Lemma get_config_keywords_witness :
  (Sample.env_of [("KEYWORDS", "SRE,Cloud")] "KEYWORDS" = None ->
   cfg_keywords (mk_config [] ["sre"; "cloud"] [] 24)
   = map Sample.lower DEFAULT_KEYWORDS)
  /\ (forall l, Forall clean_entry l ->
        Sample.env_of [("KEYWORDS", "SRE,Cloud")] "KEYWORDS"
        = Some (Str.join "," l) ->
        cfg_keywords (mk_config [] ["sre"; "cloud"] [] 24) = map Sample.lower l)
  /\ (Sample.env_of [("KEYWORDS", "SRE,Cloud")] "EXCLUDE_KEYWORDS" = None ->
      cfg_exclude (mk_config [] ["sre"; "cloud"] [] 24) = []).
Proof.
  apply (get_config_keywords Sample.lower Sample.int
           (Sample.env_of [("KEYWORDS", "SRE,Cloud")]) Sample.no_fs).
  reflexivity.
Defined.

Lemma get_config_feeds_trimmed_witness :
  Forall (fun url => url <> "" /\ Str.strip url = url)
         ["https://a.example/rss"; "https://b.example/atom"].
Proof.
  apply (get_config_feeds_trimmed Sample.lower Sample.int
           (Sample.env_of [("FEED_URLS", " https://a.example/rss ,,https://b.example/atom")])
           Sample.no_fs
           (mk_config ["https://a.example/rss"; "https://b.example/atom"]
                      DEFAULT_KEYWORDS [] 24)).
  reflexivity.
Defined.

(* ===================================================================== *)
(** * Further properties: the keyword tests *)
(* ===================================================================== *)

Lemma prefix_spec k : forall t,
  String.prefix k t = true <-> exists b, t = k +:+ b.
Proof.
  induction k as [|c k IH]; intros t.
  - split; [intros _; by exists t|]. intros _. by destruct t.
  - destruct t as [|c' t]; cbn [String.prefix].
    + split; [discriminate|]. intros (b & Hb). by rewrite append_cons in Hb.
    + destruct (ascii_dec c c') as [<-|Hne].
      * rewrite IH. split; intros (b & Hb); exists b.
        -- by rewrite append_cons, Hb.
        -- rewrite append_cons in Hb. by injection Hb.
      * split; [discriminate|]. intros (b & Hb).
        rewrite append_cons in Hb. injection Hb as Hc _. by destruct Hne.
Qed.

(** [k in t] holds exactly when [t] is some text, then [k], then some
    text. *)
Lemma contains_spec k : forall t,
  Str.contains t k = true <-> exists a b, t = a +:+ k +:+ b.
Proof.
  induction t as [|c t IH]; cbn [Str.contains]; rewrite orb_true_iff, prefix_spec.
  - split.
    + intros [(b & Hb)|]; [|discriminate]. by exists "", b.
    + intros ([|c a] & b & Hb); [left; by exists b|].
      by rewrite append_cons in Hb.
  - rewrite IH. split.
    + intros [(b & Hb)|(a & b & Hb)]; [by exists "", b|].
      exists (String c a), b. by rewrite append_cons, Hb.
    + intros ([|c' a] & b & Hb); [left; by exists b|].
      right. rewrite append_cons in Hb. injection Hb as _ Hb. by exists a, b.
Qed.

Lemma any_in_spec t ks :
  any_in t ks = true <-> exists k a b, k ∈ ks /\ t = a +:+ k +:+ b.
Proof.
  unfold any_in. rewrite existsb_exists. split.
  - intros (k & Hin & (a & b & Hk)%contains_spec).
    exists k, a, b. by rewrite list_elem_of_In.
  - intros (k & a & b & Hin & Hk). exists k. rewrite <- list_elem_of_In.
    split; [done|]. apply contains_spec. by exists a, b.
Qed.

Section KeywordFacts.

Variable str_lower : string -> string.

(** [match_keywords] holds when there are no keywords or when some keyword
    occurs in the lower-cased text as a contiguous substring;
    [match_exclusions] when some exclusion does.  An empty keyword occurs in
    every text. *)
Theorem match_keywords_substring (text : string) (ks : list string) :
  (match_keywords str_lower text ks = true
   <-> ks = [] \/ exists k a b, k ∈ ks /\ str_lower text = a +:+ k +:+ b)
  /\ (match_exclusions str_lower text ks = true
      <-> exists k a b, k ∈ ks /\ str_lower text = a +:+ k +:+ b)
  /\ ("" ∈ ks -> match_keywords str_lower text ks = true
                 /\ match_exclusions str_lower text ks = true).
Proof.
  assert (Hk : match_keywords str_lower text ks = true
   <-> ks = [] \/ exists k a b, k ∈ ks /\ str_lower text = a +:+ k +:+ b).
  { unfold match_keywords. destruct ks as [|k ks].
    - split; [by left|done].
    - rewrite any_in_spec. split; [by right|]. by intros [|]. }
  assert (He : match_exclusions str_lower text ks = true
      <-> exists k a b, k ∈ ks /\ str_lower text = a +:+ k +:+ b).
  { unfold match_exclusions. destruct ks as [|k ks].
    - split; [discriminate|]. by intros (k & a & b & ?%elem_of_nil & _).
    - apply any_in_spec. }
  split; [exact Hk|]. split; [exact He|].
  intros Hin.
  assert (exists k a b, k ∈ ks /\ str_lower text = a +:+ k +:+ b) as Hex.
  { by exists "", "", (str_lower text). }
  split; [apply Hk; by right|by apply He].
Qed.

Lemma blank_exclusion text ex :
  "" ∈ ex -> match_exclusions str_lower text ex = true.
Proof.
  intros Hin. unfold match_exclusions. destruct ex as [|k ex].
  - by apply elem_of_nil in Hin.
  - apply any_in_spec. by exists "", "", (str_lower text).
Qed.

End KeywordFacts.

(* ===================================================================== *)
(** * Further properties: the recency test, the entry loop, the feed loop *)
(* ===================================================================== *)

Lemma datetime_new_invalid y m d h mi s us :
  valid_fieldsb y m d h mi s us = false ->
  exists msg, datetime_new y m d h mi s us = Raise (ValueError msg).
Proof.
  unfold datetime_new, valid_fieldsb. intros H.
  repeat match goal with
         | |- context [negb (in_range ?a ?b ?c)] =>
             destruct (in_range a b c) eqn:?; simpl in *; [|by eauto]
         end.
  discriminate.
Qed.

(** The two ways [timedelta(hours=h)] ends: with the duration of [h] hours,
    or with [OverflowError]. *)
Lemma timedelta_hours_cases h :
  (exists delta, timedelta_hours h = Ok delta /\ duration delta = window h)
  \/ exists msg, timedelta_hours h = Raise (OverflowError msg).
Proof.
  unfold timedelta_hours.
  destruct ((h * 3600 / 86400 <? C_INT_MIN) || (C_INT_MAX <? h * 3600 / 86400));
    [right; eauto|].
  destruct (MAX_DELTA_DAYS <? Z.abs (h * 3600 / 86400)); [right; eauto|].
  left. eexists. split; [reflexivity|].
  unfold duration, window, US_PER_SECOND. simpl.
  Z.div_mod_to_equations. lia.
Qed.

Lemma of_instant_raises t :
  is_ok (of_instant t) = false ->
  of_instant t = Raise (OverflowError "date value out of range").
Proof.
  unfold of_instant.
  destruct ((0 <? t / US_PER_DAY + 1) && (t / US_PER_DAY + 1 <=? MAXORDINAL));
    [|done].
  by destruct (ord2ymd _) as [[? ?] ?].
Qed.

Section OutOfRange.

Context {World : Type}.
Variable datetime_now : World -> datetime * World.

(** The subtraction leaves the range of the datetime type on either side:
    [within_hours] then raises [OverflowError]. *)
Lemma within_hours_out_of_range (t : struct_time) (d : datetime) (h : Z)
    (w : World) :
  datetime_of_struct t = Ok d ->
  instant (datetime_now w).1 - window h < 0
  \/ MAXORDINAL * US_PER_DAY <= instant (datetime_now w).1 - window h ->
  exists msg, within_hours datetime_now (Some t) h w
              = (Raise (OverflowError msg), (datetime_now w).2).
Proof.
  intros Hd Hout. unfold within_hours. rewrite Hd.
  destruct (datetime_now w) as [now w'] eqn:Hclock. simpl in *.
  destruct (timedelta_hours_cases h) as [(delta & -> & Hdelta)|(msg & ->)];
    [|by exists msg].
  unfold datetime_sub. rewrite Hdelta.
  rewrite (of_instant_raises _ (of_instant_overflow _ Hout)).
  by eexists.
Qed.

End OutOfRange.

Section PipelineMore.

Context {World : Type}.
Variable feedparser_parse : string -> World -> result (list FeedEntry) * World.
Variable datetime_now : World -> datetime * World.
Variable urlparse_netloc : string -> result string.
Variable str_lower : string -> string.
Variables (keywords exclude : list string) (hours : Z).

#[local] Abbreviation filter' :=
  (filter_entry datetime_now str_lower keywords exclude hours).
#[local] Abbreviation entries' :=
  (entries_loop datetime_now urlparse_netloc str_lower keywords exclude hours).
#[local] Abbreviation step' :=
  (feed_step feedparser_parse datetime_now urlparse_netloc str_lower
             keywords exclude hours).
#[local] Abbreviation feeds' :=
  (feeds_loop feedparser_parse datetime_now urlparse_netloc str_lower
              keywords exclude hours).
#[local] Abbreviation fetch' :=
  (fetch_jobs feedparser_parse datetime_now urlparse_netloc str_lower
              keywords exclude hours).
#[local] Abbreviation try' :=
  (try_feed feedparser_parse datetime_now urlparse_netloc str_lower
            keywords exclude hours).

(** ** The recency test beyond the boundary *)

(** The value of [within_hours] on a timestamp the constructor accepts,
    for a window of either sign whose far end is a datetime. *)
Lemma within_hours_value (t : struct_time) (d : datetime) (h : Z) (w : World) :
  validb (datetime_now w).1 = true ->
  datetime_of_struct t = Ok d ->
  0 <= instant (datetime_now w).1 - window h < MAXORDINAL * US_PER_DAY ->
  within_hours datetime_now (Some t) h w
  = (Ok (instant (datetime_now w).1 - instant d <=? window h), (datetime_now w).2).
Proof.
  intros Hnow Hd Hwin. unfold within_hours. rewrite Hd.
  destruct (datetime_now w) as [now w'] eqn:Hclock. simpl in *.
  pose proof (instant_range now Hnow) as Hr.
  destruct (timedelta_hours_spec h) as (delta & -> & Hdelta).
  { unfold window, MAXORDINAL, US_PER_DAY, US_PER_SECOND in *. lia. }
  unfold datetime_sub. rewrite Hdelta.
  destruct (of_instant_spec (instant now - window h) Hwin) as (cutoff & -> & Hv & Hi).
  unfold datetime_of_struct in Hd. apply datetime_new_ok in Hd as [_ Hvd].
  rewrite (datetime_geb_instant d cutoff Hvd Hv), Hi.
  f_equal. f_equal.
  destruct (Z.leb_spec (instant now - window h) (instant d));
    symmetry; [apply Z.leb_le|apply Z.leb_gt]; lia.
Qed.

(** The test has no upper bound: an entry dated at or after the clock
    reading passes every window of [hours >= 0]. *)
Theorem within_hours_future (t : struct_time) (d : datetime) (w : World) :
  validb (datetime_now w).1 = true ->
  0 <= hours ->
  window hours <= instant (datetime_now w).1 ->
  datetime_of_struct t = Ok d ->
  instant (datetime_now w).1 <= instant d ->
  within_hours datetime_now (Some t) hours w = (Ok true, (datetime_now w).2).
Proof.
  intros Hnow Hh Hwin Hd Hfut.
  pose proof (instant_range _ Hnow) as Hr.
  rewrite (within_hours_value t d hours w Hnow Hd).
  - f_equal. f_equal. apply Z.leb_le.
    unfold window, US_PER_SECOND in *. lia.
  - unfold window, US_PER_SECOND in *. lia.
Qed.

(** Widening the window never drops an entry: what passes [hours] hours
    passes any longer window, the clock reading being the same. *)
Theorem within_hours_wider_window (t : struct_time) (wider : Z) (w : World) :
  validb (datetime_now w).1 = true ->
  0 <= hours <= wider ->
  window wider <= instant (datetime_now w).1 ->
  within_hours datetime_now (Some t) hours w = (Ok true, (datetime_now w).2) ->
  within_hours datetime_now (Some t) wider w = (Ok true, (datetime_now w).2).
Proof.
  intros Hnow Hh Hwin Hpass.
  pose proof (instant_range _ Hnow) as Hr.
  destruct (within_hours_true _ _ _ _ _ Hpass) as (t' & d & [= <-] & Hd).
  assert (Hw : window hours <= window wider).
  { unfold window, US_PER_SECOND. lia. }
  rewrite (within_hours_value t d hours w Hnow Hd) in Hpass
    by (unfold window, US_PER_SECOND in *; lia).
  injection Hpass as Hpass. apply Z.leb_le in Hpass.
  rewrite (within_hours_value t d wider w Hnow Hd)
    by (unfold window, US_PER_SECOND in *; lia).
  f_equal. f_equal. apply Z.leb_le. lia.
Qed.

(** A negative window is not refused as such.  While the far end of the
    window, which then lies after the clock reading, is a datetime, the
    test excludes every entry dated at or before the clock reading; once
    the far end lies past the last day of year 9999, the test raises
    [OverflowError]. *)
Theorem within_hours_negative_window (t : struct_time) (d : datetime) (w : World) :
  validb (datetime_now w).1 = true ->
  hours < 0 ->
  datetime_of_struct t = Ok d ->
  instant d <= instant (datetime_now w).1 ->
  (instant (datetime_now w).1 - window hours < MAXORDINAL * US_PER_DAY ->
   within_hours datetime_now (Some t) hours w = (Ok false, (datetime_now w).2))
  /\ (MAXORDINAL * US_PER_DAY <= instant (datetime_now w).1 - window hours ->
      exists msg, within_hours datetime_now (Some t) hours w
                  = (Raise (OverflowError msg), (datetime_now w).2)).
Proof.
  intros Hnow Hh Hd Hpast. split.
  - intros Hwin.
    pose proof (instant_range _ Hnow) as Hr.
    rewrite (within_hours_value t d hours w Hnow Hd).
    + f_equal. f_equal. apply Z.leb_gt.
      unfold window, US_PER_SECOND in *. lia.
    + unfold window, US_PER_SECOND in *. lia.
  - intros Hout.
    apply (within_hours_out_of_range datetime_now t d hours w Hd). by right.
Qed.

(** ** The entry loop *)

Lemma entries_loop_app pre post : forall results w,
  entries' (pre ++ post) results w
  = match entries' pre results w with
    | (results', None, w') => entries' post results' w'
    | stopped => stopped
    end.
Proof.
  induction pre as [|e pre IH]; intros results w; [done|].
  cbn [app entries_loop].
  destruct (filter' e w) as [[[|]|ex] w1]; [apply IH| |done].
  destruct (normalize_entry urlparse_netloc e) as [p|ex]; [apply IH|done].
Qed.

Lemma filter_entry_invalid_timestamp e t w :
  entry_timestamp e = Some t ->
  valid_fieldsb (tm_year t) (tm_mon t) (tm_mday t) (tm_hour t) (tm_min t)
                (tm_sec t) 0 = false ->
  exists msg, filter' e w = (Raise (ValueError msg), w).
Proof.
  intros Ht Hbad. unfold filter_entry, within_hours. rewrite Ht.
  unfold datetime_of_struct.
  destruct (datetime_new_invalid _ _ _ _ _ _ _ Hbad) as (msg & ->). eauto.
Qed.

(** An entry whose timestamp the [datetime] constructor rejects (a second
    of 60, say) ends its feed: the loop stops with an exception at that
    entry at the latest, and the entries after it play no part. *)
Theorem invalid_timestamp_ends_feed (pre : list FeedEntry) (e : FeedEntry)
    (rest : list FeedEntry) (t : struct_time) (results : list item) (w : World) :
  entry_timestamp e = Some t ->
  valid_fieldsb (tm_year t) (tm_mon t) (tm_mday t) (tm_hour t) (tm_min t)
                (tm_sec t) 0 = false ->
  entries' (pre ++ e :: rest) results w = entries' (pre ++ [e]) results w
  /\ is_Some (entries' (pre ++ e :: rest) results w).1.2.
Proof.
  intros Ht Hbad. rewrite !entries_loop_app.
  destruct (entries' pre results w) as [[res' [ex|]] w1]; [by split; eauto|].
  cbn [entries_loop].
  destruct (filter_entry_invalid_timestamp e t w1 Ht Hbad) as (msg & ->).
  split; [done|]. simpl. eauto.
Qed.

(** After the filter has kept an entry, [normalize_entry] can fail in
    [urlparse] only: the timestamp is one the recency test has already
    built, and it becomes the [published] field. *)
Theorem kept_entry_normalizes (e : FeedEntry) (w w' : World) :
  filter' e w = (Ok Keep, w') ->
  exists t d,
    entry_timestamp e = Some t /\ datetime_of_struct t = Ok d
    /\ normalize_entry urlparse_netloc e
       = match urlparse_netloc (getattr_str (entry_link e)) with
         | Ok netloc =>
             Ok {| title := getattr_str (entry_title e);
                   link := getattr_str (entry_link e);
                   summary := getattr_str (entry_summary e);
                   published := Some (isoformat d);
                   source := netloc |}
         | Raise ex => Raise ex
         end.
Proof.
  intros Hkeep.
  apply (filter_entry_keep datetime_now str_lower keywords exclude hours) in Hkeep.
  apply within_hours_true in Hkeep as (t & d & Ht & Hd).
  exists t, d. split; [done|]. split; [done|].
  unfold normalize_entry, entry_timestamp in *.
  destruct (entry_published_parsed e) as [t1|].
  - injection Ht as ->. by rewrite Hd.
  - by rewrite Ht, Hd.
Qed.

(** ** The feed loop *)

Lemma feeds_loop_errors all feeds : forall results w,
  feeds ⊆ all ->
  Forall (error_of all) results ->
  Forall (error_of all) (feeds' feeds results w).1.
Proof.
  induction feeds as [|url rest IH]; intros results w Hsub Hres; [done|].
  cbn [feeds_loop]. rewrite feed_step_try. apply IH.
  - intros u Hu. apply Hsub. by right.
  - rewrite !Forall_app. split; [done|]. split.
    + eapply Forall_impl; [apply try_feed_postings|]. intros r Hr. by left.
    + destruct (try' url w).1.2 as [ex|]; [|constructor].
      constructor; [|constructor]. right. exists url, ex.
      split; [|done]. apply Hsub. by left.
Qed.


(** Every error record [fetch_jobs] returns is the record of a feed of the
    list it was given: the text [Failed to parse], the URL and the message
    of an exception. *)
Theorem error_records_name_feeds (feeds : list string) (w : World) :
  Forall (fun r => is_error r = true ->
                   exists url ex, url ∈ feeds /\ r = error_record url ex)
         (fetch' feeds w).1.
Proof.
  unfold fetch_jobs.
  pose proof (feeds_loop_errors feeds feeds [] w (reflexivity _) (Forall_nil_2 _))
    as Hall.
  destruct (feeds' feeds [] w) as [results w1]. cbn [fst] in *.
  apply Forall_aggregate in Hall.
  eapply Forall_impl; [exact Hall|].
  intros r [Hp|Herr] He; [|done]. unfold is_error in He. by rewrite Hp in He.
Qed.

(** With an exclusion that every text matches, the loop body appends
    nothing. *)
Lemma entries_loop_all_excluded entries : forall results w,
  (forall text, match_exclusions str_lower text exclude = true) ->
  (entries' entries results w).1.1 = results.
Proof.
  induction entries as [|e rest IH]; intros results w Hex; [done|].
  cbn [entries_loop]. unfold filter_entry. rewrite Hex.
  destruct (within_hours datetime_now (entry_timestamp e) hours w)
    as [[[|]|ex] w1]; cbn [negb]; [|by apply IH|done].
  destruct (negb (match_keywords str_lower (entry_text e) keywords));
    by apply IH.
Qed.

Lemma feeds_loop_all_excluded feeds : forall results w,
  (forall text, match_exclusions str_lower text exclude = true) ->
  Forall (fun r => is_error r = true) results ->
  Forall (fun r => is_error r = true) (feeds' feeds results w).1.
Proof.
  induction feeds as [|url rest IH]; intros results w Hex Hres; [done|].
  cbn [feeds_loop]. rewrite feed_step_try. apply IH; [done|].
  rewrite !Forall_app. split; [done|]. split.
  - unfold try_feed. destruct (feedparser_parse url w) as [[entries|ex] w1];
      [|constructor].
    by rewrite entries_loop_all_excluded.
  - destruct (try' url w).1.2; by repeat constructor.
Qed.

Lemma fetch_jobs_blank_exclusion feeds w :
  "" ∈ exclude -> Forall (fun r => is_error r = true) (fetch' feeds w).1.
Proof.
  intros Hin. unfold fetch_jobs.
  pose proof (feeds_loop_all_excluded feeds [] w
                (fun text => blank_exclusion str_lower text exclude Hin)
                (Forall_nil_2 _)) as Hall.
  destruct (feeds' feeds [] w) as [results w1]. cbn [fst] in *.
  by apply Forall_aggregate.
Qed.

End PipelineMore.

(* ===================================================================== *)
(** * Further properties: the aggregator *)
(* ===================================================================== *)

Section SortMore.
Context {A : Type}.
Variable key : A -> string.

Lemma insert_sorted_head x l :
  Forall (key_le key x) l -> insert_sorted key x l = x :: l.
Proof.
  destruct 1 as [|y l Hxy _]; [done|]. cbn [insert_sorted].
  unfold key_le, String.le in Hxy. by destruct (String.leb (key x) (key y)).
Qed.

(** A list already in ascending key order is left as it is. *)
Lemma sort_ascending_sorted l :
  StronglySorted (key_le key) l -> sort_ascending key l = l.
Proof.
  induction 1 as [|x l Hs IH Hall]; [done|].
  cbn [sort_ascending]. rewrite IH. by apply insert_sorted_head.
Qed.

Lemma StronglySorted_reverse_ge l :
  StronglySorted (key_ge key) l -> StronglySorted (key_le key) (reverse l).
Proof.
  intros Hs. apply Sorted_StronglySorted; [apply key_le_trans|].
  apply (Sorted_reverse (key_ge key)). by apply StronglySorted_Sorted.
Qed.

(** A list already in descending key order is left as it is by
    [list.sort(key=key, reverse=True)]. *)
Lemma list_sort_reverse_sorted_id l :
  StronglySorted (key_ge key) l -> list_sort key true l = l.
Proof.
  intros Hs. unfold list_sort.
  rewrite sort_ascending_sorted by (by apply StronglySorted_reverse_ge).
  apply reverse_involutive.
Qed.

Section Filtered.
Variable P : A -> Prop.
Context `{forall x, Decision (P x)}.

Lemma insert_sorted_filtered x l :
  StronglySorted (key_le key) l ->
  filter P (insert_sorted key x l)
  = if decide (P x) then insert_sorted key x (filter P l) else filter P l.
Proof.
  induction 1 as [|y l Hs IH Hall]; cbn [insert_sorted].
  - rewrite filter_cons. by destruct (decide (P x)).
  - destruct (String.leb (key x) (key y)) eqn:Hxy.
    + rewrite (filter_cons _ x). destruct (decide (P x)) as [Hx|Hx]; [|done].
      symmetry. apply insert_sorted_head.
      assert (Hle : key_le key x y) by (unfold key_le, String.le; by rewrite Hxy).
      apply list.Forall_forall. intros z Hz.
      apply list_elem_of_filter in Hz as [_ Hz].
      apply elem_of_cons in Hz as [->|Hz]; [done|].
      rewrite list.Forall_forall in Hall.
      eapply key_le_trans; [exact Hle|by apply Hall].
    + rewrite !(filter_cons _ y), IH.
      destruct (decide (P y)) as [Hy|Hy]; [|done].
      destruct (decide (P x)) as [Hx|Hx]; [|done].
      cbn [insert_sorted]. by rewrite Hxy.
Qed.

Lemma sort_ascending_filtered l :
  filter P (sort_ascending key l) = sort_ascending key (filter P l).
Proof.
  induction l as [|x l IH]; [done|].
  cbn [sort_ascending]. rewrite insert_sorted_filtered.
  - rewrite filter_cons. destruct (decide (P x)); [|done].
    cbn [sort_ascending]. by rewrite IH.
  - apply Sorted_StronglySorted; [apply key_le_trans|].
    apply sort_ascending_Sorted.
Qed.

(** Sorting and filtering commute: the sort is stable, so it orders the
    items that satisfy [P] as it would order them alone. *)
Lemma list_sort_reverse_filtered l :
  filter P (list_sort key true l) = list_sort key true (filter P l).
Proof.
  unfold list_sort.
  by rewrite filter_reverse, sort_ascending_filtered, filter_reverse.
Qed.

End Filtered.
End SortMore.

Lemma dedupe_from_fresh results : forall seen,
  NoDup (dedup_key <$> results) ->
  (forall r, r ∈ results -> dedup_key r ∉ seen) ->
  dedupe_from seen results = results.
Proof.
  induction results as [|r rest IH]; intros seen Hnd Hfresh; [done|].
  rewrite fmap_cons in Hnd. apply NoDup_cons in Hnd as [Hr Hnd].
  cbn [dedupe_from]. rewrite decide_False by (apply Hfresh; left).
  f_equal. apply IH; [done|]. intros x Hx.
  intros [Hk%elem_of_singleton|Hs]%elem_of_union.
  - apply Hr. rewrite <- Hk. by apply list_elem_of_fmap_2.
  - by apply (Hfresh x); [right|].
Qed.

(** Running the aggregator on its own output changes nothing. *)
Theorem aggregate_idempotent (results : list item) :
  aggregate (aggregate results) = aggregate results.
Proof.
  unfold aggregate at 1.
  assert (Hd : dedupe (aggregate results) = aggregate results).
  { rewrite dedupe_eq. apply dedupe_from_fresh.
    - rewrite aggregate_perm. apply dedupe_NoDup.
    - intros r _. apply not_elem_of_empty. }
  rewrite Hd. apply list_sort_reverse_sorted_id, list_sort_reverse_sorted.
Qed.

(** The loop treats the postings of a list as it would treat them alone:
    two sets of seen keys that agree on the keys of postings keep the same
    postings. *)
Lemma dedupe_from_postings results : forall seen seen',
  (forall k, k <> (None, None) -> k ∈ seen <-> k ∈ seen') ->
  filter (fun r => is_posting r = true) (dedupe_from seen results)
  = dedupe_from seen' (filter (fun r => is_posting r = true) results).
Proof.
  induction results as [|r rest IH]; intros seen seen' Hagree; [done|].
  cbn [dedupe_from]. rewrite (filter_cons _ r).
  destruct r as [p|e]; cbn [is_posting].
  - destruct (decide (true = true)) as [_|?]; [|done]. cbn [dedupe_from].
    assert (Hk : dedup_key (Posting p) <> (None, None)) by discriminate.
    destruct (decide (dedup_key (Posting p) ∈ seen)) as [Hin|Hout].
    + rewrite decide_True by (by apply Hagree). by apply IH.
    + rewrite decide_False by (by rewrite <- Hagree).
      rewrite filter_cons_True by done. f_equal. apply IH.
      intros k Hne. rewrite !elem_of_union. by rewrite (Hagree k Hne).
  - destruct (decide (false = true)) as [?|_]; [done|].
    destruct (decide (dedup_key (FetchError e) ∈ seen)) as [Hin|Hout].
    + by apply IH.
    + rewrite filter_cons_False by discriminate. apply IH.
      intros k Hne. rewrite elem_of_union, elem_of_singleton.
      rewrite <- (Hagree k Hne). split; [|by right].
      intros [Hk|Hk]; [|done]. by destruct Hne.
Qed.

(** Error records have no effect on the postings: the postings of the
    output, in their order, are what the aggregator returns for the postings
    of the input alone. *)
Theorem postings_unaffected_by_errors (results : list item) :
  filter (fun r => is_posting r = true) (aggregate results)
  = aggregate (filter (fun r => is_posting r = true) results).
Proof.
  unfold aggregate. rewrite list_sort_reverse_filtered. f_equal.
  rewrite !dedupe_eq. by apply dedupe_from_postings.
Qed.

(* ===================================================================== *)
(** * Further properties: the façade *)
(* ===================================================================== *)

Lemma length_take_le_bound {A} (l : list A) : (length (take 25 l) <= 25)%nat.
Proof. rewrite length_take. lia. Qed.

Lemma print_items_length items : forall out,
  (length (print_items items out).1 <= length out + 3 * length items)%nat.
Proof.
  induction items as [|it rest IH]; intros out; cbn [print_items length fst];
    [lia|].
  destruct it as [p|e]; cbn [getitem_title getitem_source getitem_link
                             getitem_published]; [|simpl; lia].
  destruct (published p) as [s|]; [destruct (Str.truthy s)|];
    (etrans; [apply IH|]); rewrite !length_app; simpl; lia.
Qed.

Section FacadeMore.

Context {World : Type}.
Variable feedparser_parse : string -> World -> result (list FeedEntry) * World.
Variable datetime_now : World -> datetime * World.
Variable urlparse_netloc : string -> result string.
Variable str_lower : string -> string.
Variable py_int : string -> option Z.
Variable py_repr : list string -> string.

#[local] Abbreviation jobs' :=
  (jobs feedparser_parse datetime_now urlparse_netloc str_lower py_int).
#[local] Abbreviation main' :=
  (main feedparser_parse datetime_now urlparse_netloc str_lower py_int py_repr).
#[local] Abbreviation get_config' := (get_config str_lower py_int).

(** A value of [HOURS] that [int] rejects stops everything before any file
    or feed is read: [get_config] raises [ValueError] whatever the file
    system holds, and both [/jobs] and the one-shot run end with that
    exception. *)
Theorem get_config_bad_hours (env : Environ) (fs : FileSystem) (w : World) :
  py_int (getenv env "HOURS" "24") = None ->
  (forall fs', get_config' env fs' = Raise (int_error (getenv env "HOURS" "24")))
  /\ (forall hours keywords exclude,
        jobs' hours keywords exclude env fs w
        = (Raise (int_error (getenv env "HOURS" "24")), w))
  /\ main' true env fs w
     = ([], Unhandled (int_error (getenv env "HOURS" "24")), w).
Proof.
  intros Hbad.
  assert (Hcfg : forall fs', get_config' env fs'
                             = Raise (int_error (getenv env "HOURS" "24"))).
  { intros fs'. unfold get_config. by rewrite Hbad. }
  split; [exact Hcfg|]. split.
  - intros hours keywords exclude. unfold jobs. by rewrite Hcfg.
  - unfold main. by rewrite Hcfg.
Qed.

(** An [exclude] parameter with an empty entry (a trailing comma, say)
    excludes every entry: the empty string occurs in every text, and the
    override list, unlike the configured one, keeps empty entries.  The
    response holds error records only. *)
Theorem jobs_blank_exclude_hides_postings (hours : option Z)
    (keywords : option string) (s : string) (env : Environ) (fs : FileSystem)
    (cfg : Config) (w : World) :
  get_config' env fs = Ok cfg ->
  cfg_feeds cfg <> [] ->
  Str.truthy s = true ->
  "" ∈ override_list str_lower s ->
  exists count hrs ks items w',
    jobs' hours keywords (Some s) env fs w
    = (Ok (JobsResult count hrs ks (override_list str_lower s) items), w')
    /\ Forall (fun r => is_error r = true) items.
Proof.
  intros Hcfg Hfeeds Hs Hin. unfold jobs. rewrite Hcfg, Hs.
  destruct (cfg_feeds cfg) as [|url feeds] eqn:Hf; [done|].
  match goal with
  | |- context [run_pipeline ?p ?n ?u ?l ?k ?e ?h ?f ?w] =>
      pose proof (fetch_jobs_blank_exclusion p n u l k e h f w Hin) as Hall;
      change (fetch_jobs p n u l k e h f w) with (run_pipeline p n u l k e h f w)
        in Hall;
      destruct (run_pipeline p n u l k e h f w) as [items w']
  end.
  by eexists _, _, _, items, w'.
Qed.

(** When the first 25 items are postings, the one-shot run prints the
    summary line and then, for each of them in order, the title and source,
    the link, and the timestamp when there is one; and it returns. *)
Theorem main_once_prints_listing (env : Environ) (fs : FileSystem)
    (cfg : Config) (w w' : World) (items : list item) (ps : list JobPosting) :
  get_config' env fs = Ok cfg ->
  cfg_feeds cfg <> [] ->
  run_pipeline feedparser_parse datetime_now urlparse_netloc str_lower
               (cfg_keywords cfg) (cfg_exclude cfg) (cfg_hours cfg)
               (cfg_feeds cfg) w = (items, w') ->
  take 25 items = Posting <$> ps ->
  main' true env fs w
  = (summary_line py_repr items cfg :: concat (posting_lines <$> ps),
     Returned, w').
Proof.
  intros Hcfg Hfeeds Hrun Htake. unfold main. rewrite Hcfg.
  destruct (cfg_feeds cfg) as [|url feeds] eqn:Hf; [done|].
  rewrite Hrun, Htake, print_items_postings. reflexivity.
Qed.

(** Whatever the configuration and the feeds, the one-shot run calls
    [print] at most 76 times: once for the summary and at most three times
    for each of at most 25 items.  (A title, source or link is printed as it
    is, so one call can put more than one line on the screen.) *)
Theorem main_output_bound (env : Environ) (fs : FileSystem) (w : World) :
  (length (main feedparser_parse datetime_now urlparse_netloc str_lower py_int
                py_repr true env fs w).1.1 <= 76)%nat.
Proof.
  unfold main.
  destruct (get_config' env fs) as [cfg|ex]; [|simpl; lia].
  destruct (cfg_feeds cfg) as [|url feeds]; [simpl; lia|].
  destruct (run_pipeline _ _ _ _ _ _ _ _ _) as [items w'].
  pose proof (print_items_length (take 25 items) [summary_line py_repr items cfg])
    as Hlen.
  pose proof (length_take_le_bound items) as Ht.
  destruct (print_items (take 25 items) [summary_line py_repr items cfg])
    as [out [ex|]]; simpl in *; lia.
Qed.

End FacadeMore.

(* ===================================================================== *)
(** * The further properties at work *)
(* ===================================================================== *)

Lemma within_hours_future_witness :
  within_hours Sample.now (Some (Sample.time_of 2026 11 4 0 0 0)) 24 Sample.world1
  = (Ok true, Sample.world1).
Proof.
  apply (within_hours_future Sample.now 24 (Sample.time_of 2026 11 4 0 0 0)
           (mk_datetime 2026 11 4 0 0 0 0) Sample.world1).
  - reflexivity.
  - lia.
  - vm_compute. discriminate.
  - reflexivity.
  - vm_compute. discriminate.
Defined.

Lemma within_hours_wider_window_witness :
  within_hours Sample.now (Some (Sample.time_of 2026 11 3 11 0 0)) 48 Sample.world1
  = (Ok true, Sample.world1).
Proof.
  apply (within_hours_wider_window Sample.now 1 (Sample.time_of 2026 11 3 11 0 0)
           48 Sample.world1).
  - reflexivity.
  - lia.
  - vm_compute. discriminate.
  - vm_compute. reflexivity.
Defined.

Lemma within_hours_negative_window_witness :
  within_hours Sample.now (Some (Sample.time_of 2026 11 3 11 0 0)) (-1)
               Sample.world1
  = (Ok false, Sample.world1)
  /\ exists msg,
       within_hours Sample.now (Some (Sample.time_of 2026 11 3 11 0 0))
                    (-70000000) Sample.world1
       = (Raise (OverflowError msg), Sample.world1).
Proof.
  split.
  - apply (within_hours_negative_window Sample.now (-1)
             (Sample.time_of 2026 11 3 11 0 0) (mk_datetime 2026 11 3 11 0 0 0)
             Sample.world1).
    + reflexivity.
    + lia.
    + reflexivity.
    + vm_compute. discriminate.
    + vm_compute. reflexivity.
  - apply (within_hours_negative_window Sample.now (-70000000)
             (Sample.time_of 2026 11 3 11 0 0) (mk_datetime 2026 11 3 11 0 0 0)
             Sample.world1).
    + reflexivity.
    + lia.
    + reflexivity.
    + vm_compute. discriminate.
    + vm_compute. discriminate.
Defined.

Lemma invalid_timestamp_ends_feed_witness :
  let leap := Sample.entry "posted in a leap second" "https://a.example/1"
                (Some (Sample.time_of 2016 12 31 23 59 60)) in
  let later := Sample.entry "DevOps Engineer opening" "https://a.example/2"
                 (Some (Sample.time_of 2026 11 3 11 0 0)) in
  entries_loop Sample.now Sample.netloc Sample.lower [] [] 24
               ([] ++ leap :: [later]) [] Sample.world1
  = entries_loop Sample.now Sample.netloc Sample.lower [] [] 24
                 ([] ++ [leap]) [] Sample.world1
  /\ is_Some (entries_loop Sample.now Sample.netloc Sample.lower [] [] 24
                           ([] ++ leap :: [later]) [] Sample.world1).1.2.
Proof.
  apply (invalid_timestamp_ends_feed Sample.now Sample.netloc Sample.lower [] [] 24
           [] _ _ (Sample.time_of 2016 12 31 23 59 60) [] Sample.world1).
  - reflexivity.
  - reflexivity.
Defined.

Lemma kept_entry_normalizes_witness :
  let e := Sample.entry "DevOps Engineer opening" "https://a.example/1"
             (Some (Sample.time_of 2026 11 3 11 0 0)) in
  exists t d,
    entry_timestamp e = Some t /\ datetime_of_struct t = Ok d
    /\ normalize_entry Sample.netloc e
       = match Sample.netloc (getattr_str (entry_link e)) with
         | Ok netloc =>
             Ok {| title := getattr_str (entry_title e);
                   link := getattr_str (entry_link e);
                   summary := getattr_str (entry_summary e);
                   published := Some (isoformat d);
                   source := netloc |}
         | Raise ex => Raise ex
         end.
Proof.
  apply (kept_entry_normalizes Sample.now Sample.netloc Sample.lower ["devops"] []
           24 _ Sample.world1 Sample.world1).
  vm_compute. reflexivity.
Defined.

Lemma get_config_bad_hours_witness :
  (forall fs', get_config Sample.lower Sample.int
                 (Sample.env_of [("HOURS", "soon")]) fs'
               = Raise (int_error "soon"))
  /\ (forall hours keywords exclude,
        jobs Sample.parse Sample.now Sample.netloc Sample.lower Sample.int
             hours keywords exclude (Sample.env_of [("HOURS", "soon")])
             Sample.no_fs Sample.world1
        = (Raise (int_error "soon"), Sample.world1))
  /\ main Sample.parse Sample.now Sample.netloc Sample.lower Sample.int
          Sample.repr true (Sample.env_of [("HOURS", "soon")]) Sample.no_fs
          Sample.world1
     = ([], Unhandled (int_error "soon"), Sample.world1).
Proof.
  apply (get_config_bad_hours Sample.parse Sample.now Sample.netloc Sample.lower
           Sample.int Sample.repr (Sample.env_of [("HOURS", "soon")])
           Sample.no_fs Sample.world1).
  reflexivity.
Defined.

Lemma jobs_blank_exclude_hides_postings_witness :
  exists count hrs ks items w',
    jobs Sample.parse Sample.now Sample.netloc Sample.lower Sample.int
         None None (Some "intern,") (Sample.env_of [("FEED_URLS", "feedA,feedB")])
         Sample.no_fs Sample.world1
    = (Ok (JobsResult count hrs ks (override_list Sample.lower "intern,") items), w')
    /\ Forall (fun r => is_error r = true) items.
Proof.
  apply (jobs_blank_exclude_hides_postings Sample.parse Sample.now Sample.netloc
           Sample.lower Sample.int None None "intern,"
           (Sample.env_of [("FEED_URLS", "feedA,feedB")]) Sample.no_fs
           (mk_config ["feedA"; "feedB"] DEFAULT_KEYWORDS [] 24) Sample.world1).
  - reflexivity.
  - discriminate.
  - reflexivity.
  - apply list_elem_of_In. simpl. auto.
Defined.

Lemma main_once_prints_listing_witness :
  main Sample.parse Sample.now Sample.netloc Sample.lower Sample.int Sample.repr
       true (Sample.env_of [("FEED_URLS", "feedA"); ("KEYWORDS", "DevOps")])
       Sample.no_fs (Sample.one_entry "DevOps Engineer opening")
  = (["Found 1 postings in last 24h matching ['devops']";
      "- DevOps Engineer opening  [a.example]"; "  https://a.example/1";
      "  published: 2026-11-03T11:00:00+00:00"],
     Returned, Sample.one_entry "DevOps Engineer opening").
Proof.
  apply (main_once_prints_listing Sample.parse Sample.now Sample.netloc
           Sample.lower Sample.int Sample.repr
           (Sample.env_of [("FEED_URLS", "feedA"); ("KEYWORDS", "DevOps")])
           Sample.no_fs (mk_config ["feedA"] ["devops"] [] 24)
           (Sample.one_entry "DevOps Engineer opening")
           (Sample.one_entry "DevOps Engineer opening")
           [Sample.opening]
           [mk_posting "DevOps Engineer opening" "https://a.example/1" ""
              (Some "2026-11-03T11:00:00+00:00") "a.example"]).
  - reflexivity.
  - discriminate.
  - vm_compute. reflexivity.
  - reflexivity.
Defined.
